(** * Asset-transfer chaincode: canonical encoding and record lifecycle

    A shallow embedding of [src/asset.ts] and of the two contracts of
    [src/assetTransfer.ts] (the sensor-asset contract and the methane-level
    contract), together with the JSON platform functions they call, and the
    properties of the record registry proved on that embedding. *)

From Stdlib Require Import ZArith NArith Ascii String List Permutation Lia.
From Stdlib Require Import Decimal DecimalFacts DecimalN.
From stdpp Require Import gmap strings list fin_maps sorting.

Set Warnings "-register-all".
Local Open Scope char_scope.
Local Open Scope stdpp_scope.

(** ** JSON values *)

Module Json.

(** A JavaScript number is modelled by the decimal text that stands for
    it: a sign, an integer part, the digits after the decimal point ([Nil]
    when there is none) and an exponent of ten ([None] when there is none).
    A finite number has one such text that JavaScript prints, positional
    between 1e-6 and 1e21 and with an exponent outside; the type holds every
    text of the JSON grammar, and the rounding of a text to a double is not
    part of the model: [normal_number] below picks the texts that
    JavaScript prints as they are.  [NaN] and the infinities are not in the
    type. *)
Record number : Type := MkNumber {
  num_neg  : bool;
  num_int  : N;
  num_frac : uint;
  num_exp  : option Z
}.

(** A number written without an exponent. *)
Definition Number (neg : bool) (int : N) (frac : uint) : number :=
  MkNumber neg int frac None.

(** JSON values.  An object is the list of its properties in property
    order. *)
Inductive json : Type :=
| JNull
| JBool (b : bool)
| JNum (n : number)
| JStr (s : string)
| JArr (l : list json)
| JObj (l : list (string * json)).

Definition object : Type := list (string * json).

Definition keys (o : object) : list string := map fst o.

(** Property read [o[k]]: [None] stands for [undefined]. *)
Fixpoint obj_get (o : object) (k : string) : option json :=
  match o with
  | [] => None
  | (k', v) :: o' => if String.eqb k' k then Some v else obj_get o' k
  end.

(** Property write [o[k] = x]: an existing property keeps its place, a new
    one goes last. *)
Fixpoint obj_set (o : object) (k : string) (x : json) : object :=
  match o with
  | [] => [(k, x)]
  | (k', v) :: o' =>
      if String.eqb k' k then (k', x) :: o' else (k', v) :: obj_set o' k x
  end.

(** Well-formed values: no object holds a property name twice. *)
Fixpoint wf (v : json) : Prop :=
  match v with
  | JArr l => (fix all (l : list json) : Prop :=
                 match l with [] => True | x :: t => wf x /\ all t end) l
  | JObj o => NoDup (map fst o) /\
              (fix all (o : object) : Prop :=
                 match o with [] => True | (_, x) :: t => wf x /\ all t end) o
  | _ => True
  end.

(** Structural size: one for every value and one more for every array
    element and object property. *)
Fixpoint size (v : json) : nat :=
  match v with
  | JArr l => S ((fix sum (l : list json) : nat :=
                    match l with [] => 0 | x :: t => S (size x + sum t) end) l)
  | JObj o => S ((fix sum (o : object) : nat :=
                    match o with [] => 0 | (_, x) :: t => S (size x + sum t) end) o)
  | _ => 1
  end.

(** *** [JSON.stringify]

    The printers take the text that follows as an extra argument [k];
    [JSON_stringify v] is the compact text of [v]. *)

Fixpoint uint_text (d : uint) (k : string) : string :=
  match d with
  | Nil => k
  | D0 d => String "0" (uint_text d k)
  | D1 d => String "1" (uint_text d k)
  | D2 d => String "2" (uint_text d k)
  | D3 d => String "3" (uint_text d k)
  | D4 d => String "4" (uint_text d k)
  | D5 d => String "5" (uint_text d k)
  | D6 d => String "6" (uint_text d k)
  | D7 d => String "7" (uint_text d k)
  | D8 d => String "8" (uint_text d k)
  | D9 d => String "9" (uint_text d k)
  end.

Definition fraction_text (f : uint) (k : string) : string :=
  match f with
  | Nil => k
  | _ => String "." (uint_text f k)
  end.

(** The exponent as JavaScript prints it: the letter, a sign, the digits. *)
Definition exponent_text (e : option Z) (k : string) : string :=
  match e with
  | None => k
  | Some z =>
      String "e"
        (String (if (z <? 0)%Z then "-" else "+")
           (uint_text (N.to_uint (Z.abs_N z)) k))
  end.

Definition number_text (n : number) (k : string) : string :=
  let body :=
    uint_text (N.to_uint (num_int n))
      (fraction_text (num_frac n) (exponent_text (num_exp n) k)) in
  if num_neg n then String "-" body else body.

Definition hex_digit (n : N) : ascii :=
  if (n <? 10)%N then ascii_of_N (48 + n) else ascii_of_N (87 + n).

(** One character of a string literal, escaped as [JSON.stringify] does. *)
Definition escape_char (c : ascii) (k : string) : string :=
  let n := N_of_ascii c in
  if (n =? 34)%N then String "\" (String "034" k)
  else if (n =? 92)%N then String "\" (String "\" k)
  else if (n =? 8)%N then String "\" (String "b" k)
  else if (n =? 9)%N then String "\" (String "t" k)
  else if (n =? 10)%N then String "\" (String "n" k)
  else if (n =? 12)%N then String "\" (String "f" k)
  else if (n =? 13)%N then String "\" (String "r" k)
  else if (n <? 32)%N then
    String "\" (String "u" (String "0" (String "0"
      (String (hex_digit (n / 16)) (String (hex_digit (n mod 16)) k)))))
  else String c k.

Fixpoint escape (s : string) (k : string) : string :=
  match s with
  | EmptyString => k
  | String c s' => escape_char c (escape s' k)
  end.

Definition quote (s : string) (k : string) : string :=
  String "034" (escape s (String "034" k)).

Fixpoint print (v : json) (k : string) : string :=
  match v with
  | JNull => String "n" (String "u" (String "l" (String "l" k)))
  | JBool true => String "t" (String "r" (String "u" (String "e" k)))
  | JBool false =>
      String "f" (String "a" (String "l" (String "s" (String "e" k))))
  | JNum n => number_text n k
  | JStr s => quote s k
  | JArr l =>
      String "["
        match l with
        | [] => String "]" k
        | x :: t =>
            print x
              ((fix elems (t : list json) : string :=
                  match t with
                  | [] => String "]" k
                  | y :: t' => String "," (print y (elems t'))
                  end) t)
        end
  | JObj o =>
      String "{"
        match o with
        | [] => String "}" k
        | (n, x) :: t =>
            quote n (String ":" (print x
              ((fix members (t : object) : string :=
                  match t with
                  | [] => String "}" k
                  | (m, y) :: t' =>
                      String "," (quote m (String ":" (print y (members t'))))
                  end) t)))
        end
  end.

Definition JSON_stringify (v : json) : string := print v "".

(** The text after the first element of an array, and after the first
    property of an object, as [print] writes them. *)
Definition print_elems (k : string) : list json -> string :=
  fix elems (t : list json) : string :=
    match t with
    | [] => String "]" k
    | y :: t' => String "," (print y (elems t'))
    end.

Definition print_members (k : string) : object -> string :=
  fix members (t : object) : string :=
    match t with
    | [] => String "}" k
    | (m, y) :: t' => String "," (quote m (String ":" (print y (members t'))))
    end.

Definition size_elems : list json -> nat :=
  fix sum (l : list json) : nat :=
    match l with [] => 0 | x :: t => S (size x + sum t) end.

Definition size_members : object -> nat :=
  fix sum (o : object) : nat :=
    match o with [] => 0 | (_, x) :: t => S (size x + sum t) end.

(** *** [JSON.parse]

    A recursive-descent parser for JSON text.  White space between tokens
    is skipped; a number is read with its fraction and exponent and kept as
    the text it is; an object that names a property twice keeps the first place and the last
    value, as a JavaScript object does.  Every parser returns the value read
    and the text left. *)

Definition is_ws (c : ascii) : bool :=
  let n := N_of_ascii c in
  (n =? 32)%N || (n =? 9)%N || (n =? 10)%N || (n =? 13)%N.

Fixpoint skip_ws (s : string) : string :=
  match s with
  | EmptyString => EmptyString
  | String c s' => if is_ws c then skip_ws s' else s
  end.

Definition digit_of (c : ascii) : option (uint -> uint) :=
  match N_of_ascii c with
  | 48%N => Some D0 | 49%N => Some D1 | 50%N => Some D2 | 51%N => Some D3
  | 52%N => Some D4 | 53%N => Some D5 | 54%N => Some D6 | 55%N => Some D7
  | 56%N => Some D8 | 57%N => Some D9
  | _ => None
  end.

Definition is_digit (c : ascii) : bool :=
  match digit_of c with Some _ => true | None => false end.

(** The longest prefix of digits, and the rest. *)
Fixpoint lex_digits (s : string) : uint * string :=
  match s with
  | EmptyString => (Nil, EmptyString)
  | String c s' =>
      match digit_of c with
      | Some d => let '(ds, r) := lex_digits s' in (d ds, r)
      | None => (Nil, s)
      end
  end.

Definition parse_sign (s : string) : bool * string :=
  match s with
  | String c s' => if Ascii.eqb c "-" then (true, s') else (false, s)
  | EmptyString => (false, s)
  end.

Definition parse_fraction (s : string) : option (uint * string) :=
  match s with
  | String c s' =>
      if Ascii.eqb c "." then
        let '(fp, r) := lex_digits s' in
        match fp with
        | Nil => None
        | _ => Some (fp, r)
        end
      else Some (Nil, s)
  | EmptyString => Some (Nil, s)
  end.

Definition parse_exponent_sign (s : string) : bool * string :=
  match s with
  | String c s' =>
      if Ascii.eqb c "-" then (true, s')
      else if Ascii.eqb c "+" then (false, s')
      else (false, s)
  | EmptyString => (false, s)
  end.

Definition parse_exponent (s : string) : option (option Z * string) :=
  match s with
  | String c s' =>
      if Ascii.eqb c "e" || Ascii.eqb c "E" then
        let '(neg, s1) := parse_exponent_sign s' in
        let '(ds, r) := lex_digits s1 in
        match ds with
        | Nil => None
        | _ =>
            let z := Z.of_N (N.of_uint ds) in
            Some (Some (if neg then (- z)%Z else z), r)
        end
      else Some (None, s)
  | EmptyString => Some (None, s)
  end.

(** A number: an optional minus sign, an integer part with no superfluous
    leading zero, an optional fraction and an optional exponent. *)
Definition parse_number (s : string) : option (number * string) :=
  let '(neg, s1) := parse_sign s in
  let '(ip, s2) := lex_digits s1 in
  if uint_eq_dec (unorm ip) ip then
    match parse_fraction s2 with
    | Some (fp, s3) =>
        match parse_exponent s3 with
        | Some (e, r) => Some (MkNumber neg (N.of_uint ip) fp e, r)
        | None => None
        end
    | None => None
    end
  else None.

Definition hex_value (c : ascii) : option N :=
  let n := N_of_ascii c in
  if (48 <=? n)%N && (n <=? 57)%N then Some (n - 48)%N
  else if (97 <=? n)%N && (n <=? 102)%N then Some (n - 87)%N
  else if (65 <=? n)%N && (n <=? 70)%N then Some (n - 55)%N
  else None.

Definition hex4 (a b c d : ascii) : option N :=
  match hex_value a, hex_value b, hex_value c, hex_value d with
  | Some x, Some y, Some z, Some w => Some (((x * 16 + y) * 16 + z) * 16 + w)%N
  | _, _, _, _ => None
  end.

(** The bytes of a code point of the basic plane, one, two or three by its
    size; the two halves of a surrogate pair are written one after the
    other. *)
Definition utf8_text (cp : N) (k : string) : option string :=
  if (cp <? 128)%N then Some (String (ascii_of_N cp) k)
  else if (cp <? 2048)%N then
    Some (String (ascii_of_N (192 + cp / 64))
            (String (ascii_of_N (128 + cp mod 64)) k))
  else
    Some (String (ascii_of_N (224 + cp / 4096))
            (String (ascii_of_N (128 + (cp / 64) mod 64))
               (String (ascii_of_N (128 + cp mod 64)) k))).

Definition unescape (e : ascii) : option ascii :=
  match N_of_ascii e with
  | 34%N => Some "034"%char
  | 92%N => Some "\"%char
  | 47%N => Some "/"%char
  | 98%N => Some "008"%char
  | 102%N => Some "012"%char
  | 110%N => Some "010"%char
  | 114%N => Some "013"%char
  | 116%N => Some "009"%char
  | _ => None
  end.

(** The text of a string literal after its opening quote. *)
Fixpoint parse_string_body (s : string) : option (string * string) :=
  match s with
  | EmptyString => None
  | String c s1 =>
      if Ascii.eqb c "034" then Some (EmptyString, s1)
      else if Ascii.eqb c "\" then
        match s1 with
        | EmptyString => None
        | String e s2 =>
            if Ascii.eqb e "u" then
              match s2 with
              | String h1 (String h2 (String h3 (String h4 s3))) =>
                  match hex4 h1 h2 h3 h4, parse_string_body s3 with
                  | Some cp, Some (body, r) =>
                      match utf8_text cp body with
                      | Some body' => Some (body', r)
                      | None => None
                      end
                  | _, _ => None
                  end
              | _ => None
              end
            else
              match unescape e, parse_string_body s2 with
              | Some c', Some (body, r) => Some (String c' body, r)
              | _, _ => None
              end
        end
      else if (N_of_ascii c <? 32)%N then None
      else
        match parse_string_body s1 with
        | Some (body, r) => Some (String c body, r)
        | None => None
        end
  end.

Fixpoint strip_prefix (p s : string) : option string :=
  match p with
  | EmptyString => Some s
  | String c p' =>
      match s with
      | String c' s' => if Ascii.eqb c c' then strip_prefix p' s' else None
      | EmptyString => None
      end
  end.

Inductive token_class : Type :=
| TNull | TTrue | TFalse | TString | TArray | TObject | TNumber | TBad.

Definition classify (c : ascii) : token_class :=
  if Ascii.eqb c "n" then TNull
  else if Ascii.eqb c "t" then TTrue
  else if Ascii.eqb c "f" then TFalse
  else if Ascii.eqb c "034" then TString
  else if Ascii.eqb c "[" then TArray
  else if Ascii.eqb c "{" then TObject
  else if Ascii.eqb c "-" || is_digit c then TNumber
  else TBad.

Definition build_object (ms : list (string * json)) : object :=
  fold_left (fun o m => obj_set o (fst m) (snd m)) ms [].

Definition starts_with (c : ascii) (s : string) : option string :=
  match s with
  | String c' r => if Ascii.eqb c c' then Some r else None
  | EmptyString => None
  end.

Fixpoint parse_value (fuel : nat) (s : string) : option (json * string) :=
  match fuel with
  | O => None
  | S fuel' =>
      match skip_ws s with
      | EmptyString => None
      | String c s1 =>
          match classify c with
          | TNull =>
              match strip_prefix "ull" s1 with
              | Some r => Some (JNull, r) | None => None
              end
          | TTrue =>
              match strip_prefix "rue" s1 with
              | Some r => Some (JBool true, r) | None => None
              end
          | TFalse =>
              match strip_prefix "alse" s1 with
              | Some r => Some (JBool false, r) | None => None
              end
          | TString =>
              match parse_string_body s1 with
              | Some (str, r) => Some (JStr str, r) | None => None
              end
          | TArray =>
              match starts_with "]" (skip_ws s1) with
              | Some r => Some (JArr [], r)
              | None =>
                  match parse_elements fuel' s1 with
                  | Some (l, r) => Some (JArr l, r) | None => None
                  end
              end
          | TObject =>
              match starts_with "}" (skip_ws s1) with
              | Some r => Some (JObj [], r)
              | None =>
                  match parse_members fuel' s1 with
                  | Some (ms, r) => Some (JObj (build_object ms), r)
                  | None => None
                  end
              end
          | TNumber =>
              match parse_number (String c s1) with
              | Some (n, r) => Some (JNum n, r) | None => None
              end
          | TBad => None
          end
      end
  end
with parse_elements (fuel : nat) (s : string) : option (list json * string) :=
  match fuel with
  | O => None
  | S fuel' =>
      match parse_value fuel' s with
      | None => None
      | Some (v, r) =>
          match skip_ws r with
          | EmptyString => None
          | String c r1 =>
              if Ascii.eqb c "," then
                match parse_elements fuel' r1 with
                | Some (l, r2) => Some (v :: l, r2) | None => None
                end
              else if Ascii.eqb c "]" then Some ([v], r1)
              else None
          end
      end
  end
with parse_members (fuel : nat) (s : string)
  : option (list (string * json) * string) :=
  match fuel with
  | O => None
  | S fuel' =>
      match starts_with "034" (skip_ws s) with
      | None => None
      | Some s1 =>
          match parse_string_body s1 with
          | None => None
          | Some (name, s2) =>
              match starts_with ":" (skip_ws s2) with
              | None => None
              | Some s3 =>
                  match parse_value fuel' s3 with
                  | None => None
                  | Some (v, r) =>
                      match skip_ws r with
                      | EmptyString => None
                      | String c r1 =>
                          if Ascii.eqb c "," then
                            match parse_members fuel' r1 with
                            | Some (ms, r2) => Some ((name, v) :: ms, r2)
                            | None => None
                            end
                          else if Ascii.eqb c "}" then Some ([(name, v)], r1)
                          else None
                      end
                  end
              end
          end
      end
  end.

(** [JSON.parse]: [None] stands for the [SyntaxError] it throws. *)
Definition JSON_parse (s : string) : option json :=
  match parse_value (S (String.length s)) s with
  | Some (v, r) =>
      match skip_ws r with
      | EmptyString => Some v
      | String _ _ => None
      end
  | None => None
  end.

End Json.

Import Json.

(** ** The canonical encoder *)

Module Encoder.

(** Insertion of a property into a list ordered by property name; names are
    compared byte by byte. *)
Fixpoint insert_by_key {A : Type} (m : string * A) (l : list (string * A))
  : list (string * A) :=
  match l with
  | [] => [m]
  | m' :: l' =>
      if String.leb (fst m) (fst m') then m :: l else m' :: insert_by_key m l'
  end.

Definition sort_by_key {A : Type} (l : list (string * A)) : list (string * A) :=
  fold_right insert_by_key [] l.

(** Modelled from the spec: the package [sort-keys-recursive] is imported by
    [assetTransfer.ts] and is not part of the sources.  The spec has the
    encoder sort all object keys in ascending lexical order, recursively,
    and keep arrays in their original order. *)
Fixpoint sortKeysRecursive (v : json) : json :=
  match v with
  | JArr l => JArr (map sortKeysRecursive l)
  | JObj o =>
      JObj (sort_by_key (map (fun m => (fst m, sortKeysRecursive (snd m))) o))
  | _ => v
  end.

(** Modelled from the spec: the package [json-stringify-deterministic] is
    imported by [assetTransfer.ts] and is not part of the sources.  After
    the keys are sorted the spec has the encoder produce the compact,
    whitespace-free text of the value. *)
Definition stringify (v : json) : string := JSON_stringify v.

End Encoder.

Import Encoder.

(** ** Ledger access *)

Module Ledger.

(** The world state: the current bytes of every key.  Text and its UTF-8
    bytes are identified, so [Buffer.from] and [toString] are the
    identity. *)
Abbreviation WorldState := (gmap string string).

Inductive error : Type :=
| Error (message : string)
| ReferenceError (name : string)
| SyntaxError
| TypeError.

(** A transaction function: it returns a value or throws, and leaves a
    world state. *)
Definition Tx (A : Type) : Type := WorldState -> (error + A) * WorldState.

Definition ret {A : Type} (a : A) : Tx A := fun ws => (inr a, ws).

Definition throw {A : Type} (e : error) : Tx A := fun ws => (inl e, ws).

Definition bind {A B : Type} (m : Tx A) (f : A -> Tx B) : Tx B :=
  fun ws =>
    match m ws with
    | (inl e, ws') => (inl e, ws')
    | (inr a, ws') => f a ws'
    end.

Notation "'do' x <- m ; f" := (bind m (fun x => f))
  (at level 10, x name, m at level 100, f at level 200).

(** Modelled from the spec: the stub of the ledger runtime is not part of
    the sources.  The spec gives it four operations: [get] returns the bytes
    of a key or nothing, [put] and [delete] write, and [scan] yields the keys
    from [startKey] up to but excluding [endKey] in ascending key order, an
    empty bound being no bound. *)
Definition getState (key : string) : Tx (option string) :=
  fun ws => (inr (ws !! key), ws).

Definition putState (key : string) (value : string) : Tx unit :=
  fun ws => (inr tt, <[key := value]> ws).

Definition deleteState (key : string) : Tx unit :=
  fun ws => (inr tt, delete key ws).

Definition in_range (startKey endKey key : string) : bool :=
  String.leb startKey key &&
  (String.eqb endKey "" || String.ltb key endKey).

Definition getStateByRange (startKey endKey : string)
  : Tx (list (string * string)) :=
  fun ws =>
    (inr (filter (fun kv => in_range startKey endKey (fst kv) = true)
            (sort_by_key (map_to_list ws))), ws).

End Ledger.

Import Ledger.

(** ** [asset.ts] and the sensor-asset contract of [assetTransfer.ts] *)

Module AssetTransfer.

(** The class [Asset]: [docType] is optional. *)
Record Asset : Type := {
  docType : option string;
  ID : string;
  SNR : number;
  VBAT : number;
  Latitude : number;
  Longitude : number;
  Gas_resistance : number;
  Temperature : number;
  Pressure : number;
  Humidity : number;
  Light : number;
  Gyroscope : list number;
  Accelerometer : list number;
  Owner : string
}.

Definition numbers (l : list number) : json := JArr (map JNum l).

(** The object literal written in [InitLedger], [CreateAsset] and
    [UpdateAsset], with its properties in the order of the source. *)
Definition asset_literal (id : string)
    (snr vbat latitude longitude gas_resistance temperature pressure
     humidity light : number)
    (gyroscope accelerometer : list number) (owner : string) : object :=
  [ ("ID", JStr id);
    ("SNR", JNum snr);
    ("VBAT", JNum vbat);
    ("Latitude", JNum latitude);
    ("Longitude", JNum longitude);
    ("Gas_resistance", JNum gas_resistance);
    ("Temperature", JNum temperature);
    ("Pressure", JNum pressure);
    ("Humidity", JNum humidity);
    ("Light", JNum light);
    ("Gyroscope", numbers gyroscope);
    ("Accelerometer", numbers accelerometer);
    ("Owner", JStr owner) ].

(** An [Asset] as a JavaScript object: [docType] is a property when it has
    been assigned, and it has then been assigned last. *)
Definition asset_object (a : Asset) : object :=
  let o := asset_literal (ID a) (SNR a) (VBAT a) (Latitude a) (Longitude a)
             (Gas_resistance a) (Temperature a) (Pressure a) (Humidity a)
             (Light a) (Gyroscope a) (Accelerometer a) (Owner a) in
  match docType a with
  | Some t => obj_set o "docType" (JStr t)
  | None => o
  end.

Definition half : number := Number false 0 (D5 Nil).

(** The seed records of [InitLedger]. *)
Definition assets : list Asset :=
  [ {| docType := None;
       ID := "basdni7s8acadad8a9d8";
       SNR := half;
       VBAT := Number false 3 (D3 Nil);
       Latitude := Number false 45 (D4 (D6 (D4 (D6 (D6 (D4 Nil))))));
       Longitude := Number false 12 (D2 (D6 (D2 (D9 Nil))));
       Gas_resistance := half;
       Temperature := Number false 31 (D7 Nil);
       Pressure := Number false 1000 (D5 Nil);
       Humidity := Number false 50 (D5 Nil);
       Light := half;
       Gyroscope := [half; half; half];
       Accelerometer := [half; half; half];
       Owner := "Chidera's IoT device 1" |} ].

Definition set_docType (a : Asset) (t : string) : Asset :=
  {| docType := Some t; ID := ID a; SNR := SNR a; VBAT := VBAT a;
     Latitude := Latitude a; Longitude := Longitude a;
     Gas_resistance := Gas_resistance a; Temperature := Temperature a;
     Pressure := Pressure a; Humidity := Humidity a; Light := Light a;
     Gyroscope := Gyroscope a; Accelerometer := Accelerometer a;
     Owner := Owner a |}.

(** The loop of [InitLedger] over the seed records; the call of
    [console.info] leaves no trace in the model. *)
Fixpoint InitLedger_loop (l : list Asset) : Tx unit :=
  match l with
  | [] => ret tt
  | asset :: l' =>
      let asset := set_docType asset "asset" in
      do _ <- putState (ID asset)
                (stringify (sortKeysRecursive (JObj (asset_object asset))));
      InitLedger_loop l'
  end.

Definition InitLedger : Tx unit := InitLedger_loop assets.

(** [assetJSON && assetJSON.length > 0], as a boolean. *)
Definition AssetExists (id : string) : Tx bool :=
  do assetJSON <- getState id;
  ret match assetJSON with
      | Some bytes => negb (Nat.eqb (String.length bytes) 0)
      | None => false
      end.

Definition CreateAsset (id : string)
    (snr vbat latitude longitude gas_resistance temperature pressure
     humidity light : number)
    (gyroscope accelerometer : list number) (owner : string) : Tx unit :=
  do exists_ <- AssetExists id;
  if exists_ : bool then
    throw (Error ("The asset " +:+ id +:+ " already exists"))
  else
    let asset := asset_literal id snr vbat latitude longitude gas_resistance
                   temperature pressure humidity light gyroscope
                   accelerometer owner in
    putState id (stringify (sortKeysRecursive (JObj asset))).

Definition ReadAsset (id : string) : Tx string :=
  do assetJSON <- getState id;
  match assetJSON with
  | None => throw (Error ("The asset " +:+ id +:+ " does not exist"))
  | Some bytes =>
      if Nat.eqb (String.length bytes) 0 then
        throw (Error ("The asset " +:+ id +:+ " does not exist"))
      else ret bytes
  end.

Definition UpdateAsset (id : string)
    (snr vbat latitude longitude gas_resistance temperature pressure
     humidity light : number)
    (gyroscope accelerometer : list number) (owner : string) : Tx unit :=
  do exists_ <- AssetExists id;
  if negb exists_ then
    throw (Error ("The asset " +:+ id +:+ " does not exist"))
  else
    let updatedAsset := asset_literal id snr vbat latitude longitude
                          gas_resistance temperature pressure humidity light
                          gyroscope accelerometer owner in
    putState id (stringify (sortKeysRecursive (JObj updatedAsset))).

Definition DeleteAsset (id : string) : Tx unit :=
  do exists_ <- AssetExists id;
  if negb exists_ then
    throw (Error ("The asset " +:+ id +:+ " does not exist"))
  else deleteState id.

(** [JSON.parse] inside a transaction. *)
Definition parse (s : string) : Tx json :=
  match JSON_parse s with
  | Some v => ret v
  | None => throw SyntaxError
  end.

(** The read [asset.Owner]: reading a property of [null] throws, any other
    value that is not an object has no such property. *)
Definition get_property (v : json) (name : string) : Tx (option json) :=
  match v with
  | JNull => throw TypeError
  | JObj o => ret (obj_get o name)
  | _ => ret None
  end.

(** The write [asset.Owner = newOwner], in strict mode: it throws on a
    primitive value, and on an array it adds a property that is no element
    and that the encoder does not see. *)
Definition set_property (v : json) (name : string) (x : json) : Tx json :=
  match v with
  | JObj o => ret (JObj (obj_set o name x))
  | JArr l => ret (JArr l)
  | _ => throw TypeError
  end.

(** The old owner is returned as it was read: any JSON value, or nothing
    for [undefined]. *)
Definition TransferAsset (id : string) (newOwner : string)
  : Tx (option json) :=
  do assetString <- ReadAsset id;
  do asset <- parse assetString;
  do oldOwner <- get_property asset "Owner";
  do asset <- set_property asset "Owner" (JStr newOwner);
  do _ <- putState id (stringify (sortKeysRecursive asset));
  ret oldOwner.

(** The loop of [GetAllAssets] over the iterator. *)
Fixpoint GetAllAssets_loop (allResults : list json)
    (iterator : list (string * string)) : list json :=
  match iterator with
  | [] => allResults
  | result :: iterator' =>
      let strValue := snd result in
      let record :=
        match JSON_parse strValue with
        | Some record => record
        | None => JStr strValue
        end in
      GetAllAssets_loop (allResults ++ [record]) iterator'
  end.

Definition GetAllAssets : Tx string :=
  do iterator <- getStateByRange "" "";
  ret (JSON_stringify (JArr (GetAllAssets_loop [] iterator))).

End AssetTransfer.

(** ** The methane-level contract of [assetTransfer.ts] *)

Module MethaneTransfer.

(** The records of this contract: a timestamp and a level.  Its [asset.ts]
    is not part of the sources; the fields are those of the object literals
    of the contract. *)
Record Asset : Type := {
  docType : option string;
  Timestamp : string;
  Methanelevel : number
}.

Definition asset_literal (timestamp : string) (methanelevel : number)
  : object :=
  [ ("Timestamp", JStr timestamp);
    ("Methanelevel", JNum methanelevel) ].

Definition asset_object (a : Asset) : object :=
  let o := asset_literal (Timestamp a) (Methanelevel a) in
  match docType a with
  | Some t => obj_set o "docType" (JStr t)
  | None => o
  end.

Definition assets : list Asset :=
  [ {| docType := None;
       Timestamp := "00:00:00";
       Methanelevel := Number false 0 Nil |} ].

Definition set_docType (a : Asset) (t : string) : Asset :=
  {| docType := Some t; Timestamp := Timestamp a;
     Methanelevel := Methanelevel a |}.

Fixpoint InitLedger_loop (l : list Asset) : Tx unit :=
  match l with
  | [] => ret tt
  | asset :: l' =>
      let asset := set_docType asset "asset" in
      do _ <- putState (Timestamp asset)
                (stringify (sortKeysRecursive (JObj (asset_object asset))));
      InitLedger_loop l'
  end.

Definition InitLedger : Tx unit := InitLedger_loop assets.

Definition AssetExists (timestamp : string) : Tx bool :=
  do assetJSON <- getState timestamp;
  ret match assetJSON with
      | Some bytes => negb (Nat.eqb (String.length bytes) 0)
      | None => false
      end.

Definition CreateAsset (timestamp : string) (methanelevel : number)
  : Tx unit :=
  do exists_ <- AssetExists timestamp;
  if exists_ : bool then
    throw (Error ("Data for timestamp " +:+ timestamp +:+ " already exists"))
  else
    let asset := asset_literal timestamp methanelevel in
    putState timestamp (stringify (sortKeysRecursive (JObj asset))).

Definition ReadAsset (timestamp : string) : Tx string :=
  do assetJSON <- getState timestamp;
  match assetJSON with
  | None =>
      throw (Error ("Data for timestamp " +:+ timestamp +:+ " does not exist"))
  | Some bytes =>
      if Nat.eqb (String.length bytes) 0 then
        throw
          (Error ("Data for timestamp " +:+ timestamp +:+ " does not exist"))
      else ret bytes
  end.

Definition UpdateAsset (timestamp : string) (methanelevel : number)
  : Tx unit :=
  do exists_ <- AssetExists timestamp;
  if negb exists_ then
    throw (Error ("Data for timestamp " +:+ timestamp +:+ " does not exist"))
  else
    let updatedAsset := asset_literal timestamp methanelevel in
    putState timestamp (stringify (sortKeysRecursive (JObj updatedAsset))).

(** The value of an identifier that no scope binds: evaluating it throws. *)
Definition unbound (name : string) : Tx string :=
  throw (ReferenceError name).

(** [DeleteAsset] takes [timestamp] and passes [id] to [AssetExists]; the
    contract binds no [id]. *)
Definition DeleteAsset (timestamp : string) : Tx unit :=
  do id <- unbound "id";
  do exists_ <- AssetExists id;
  if negb exists_ then
    throw (Error ("Data for timestamp " +:+ timestamp +:+ " does not exist"))
  else deleteState timestamp.

Fixpoint GetAllAssets_loop (allResults : list json)
    (iterator : list (string * string)) : list json :=
  match iterator with
  | [] => allResults
  | result :: iterator' =>
      let strValue := snd result in
      let record :=
        match JSON_parse strValue with
        | Some record => record
        | None => JStr strValue
        end in
      GetAllAssets_loop (allResults ++ [record]) iterator'
  end.

Definition GetAllAssets : Tx string :=
  do iterator <- getStateByRange "" "";
  ret (JSON_stringify (JArr (GetAllAssets_loop [] iterator))).

End MethaneTransfer.

(** * The vocabulary of the properties *)

(** ** Parsing *)

Definition head_digit (s : string) : bool :=
  match s with String c _ => is_digit c | EmptyString => false end.

(** A text that may follow a fraction: it starts with neither a digit nor
    a decimal point. *)
Definition fraction_follow (k : string) : bool :=
  match k with
  | EmptyString => true
  | String c _ => negb (is_digit c) && negb (Ascii.eqb c ".")
  end.

(** A text that may follow a number: it starts with no digit, decimal point
    or exponent letter. *)
Definition follow (k : string) : bool :=
  fraction_follow k &&
  match k with
  | EmptyString => true
  | String c _ => negb (Ascii.eqb c "e" || Ascii.eqb c "E")
  end.

(** The first character of a printed value: no white space and no closing
    bracket. *)
Definition value_start (c : ascii) : Prop :=
  is_ws c = false /\ Ascii.eqb "]" c = false /\ Ascii.eqb "}" c = false.

(** The parser reads [v] back from its text, given fuel for its size. *)
Definition parses (v : json) : Prop :=
  forall fuel k, size v <= fuel -> follow k = true ->
    parse_value fuel (print v k) = Some (v, k).

(** Test data is written with a backquote where the JSON text has a double
    quote. *)
Fixpoint text (s : string) : string :=
  match s with
  | EmptyString => EmptyString
  | String c s' => String (if Ascii.eqb c "`" then "034"%char else c) (text s')
  end.

(** ** Sorting by key *)

Definition key_le {A : Type} (m1 m2 : string * A) : Prop :=
  String.le (fst m1) (fst m2).

Definition sort_member (m : string * json) : string * json :=
  (fst m, sortKeysRecursive (snd m)).

(** The bytes written for an object. *)
Definition encode (o : object) : string :=
  stringify (sortKeysRecursive (JObj o)).

(** Keys in strictly ascending order, byte by byte. *)
Fixpoint ascending (l : list string) : Prop :=
  match l with
  | a :: t =>
      match t with
      | b :: _ => String.ltb a b = true
      | [] => True
      end /\ ascending t
  | [] => True
  end.

(** Every object of the value, at any depth, lists its properties in
    strictly ascending key order. *)
Fixpoint key_sorted (v : json) : Prop :=
  match v with
  | JArr l => (fix all (l : list json) : Prop :=
                 match l with [] => True | x :: t => key_sorted x /\ all t end) l
  | JObj o => ascending (map fst o) /\
              (fix all (o : object) : Prop :=
                 match o with
                 | [] => True
                 | (_, x) :: t => key_sorted x /\ all t
                 end) o
  | _ => True
  end.

(** Canonical bytes: the compact text of an object whose keys are in
    strictly ascending order, recursively. *)
Definition canonical (bytes : string) : Prop :=
  exists o, key_sorted (JObj o) /\ bytes = JSON_stringify (JObj o).

(** ** The keyspace *)

(** A key is occupied when it holds bytes and they are not empty: the test
    of [AssetExists] and of [ReadAsset]. *)
Definition occupied (ws : WorldState) (key : string) : bool :=
  match ws !! key with
  | Some bytes => negb (Nat.eqb (String.length bytes) 0)
  | None => false
  end.


(** The record stored at a key: the decoded bytes of the key. *)
Definition stored_record (ws : WorldState) (key : string) : option json :=
  match ws !! key with
  | Some bytes => JSON_parse bytes
  | None => None
  end.

Definition keyspace_canonical (ws : WorldState) : Prop :=
  forall key bytes, ws !! key = Some bytes -> canonical bytes.

(** The characters that a JSON value can start with: a brace, a bracket,
    a double quote, a minus sign, a digit, or the first letter of [true],
    [false] or [null]. *)
Definition starts_value (c : ascii) : bool :=
  existsb (Ascii.eqb c)
    ["{"; "["; "034"; "-"; "t"; "f"; "n";
     "0"; "1"; "2"; "3"; "4"; "5"; "6"; "7"; "8"; "9"]%char.

(** Bytes that are no JSON text whatever follows: after the white space
    there is nothing, or a character that starts no value. *)
Definition malformed (bytes : string) : bool :=
  match skip_ws bytes with
  | EmptyString => true
  | String c _ => negb (starts_value c)
  end.



(** The last digit is not a zero. *)
Definition ends_nonzero (d : uint) : bool :=
  match Decimal.rev d with D0 _ => false | _ => true end.

(** The number of zeros that a fraction starts with. *)
Fixpoint leading_zeros (d : uint) : nat :=
  match d with D0 d' => S (leading_zeros d') | _ => 0 end.

(** Number texts that JavaScript prints as they are: at most fifteen
    digits, which one double stands for; no zero at the end of a fraction
    and no negative zero; positional from 1e-6 on, and with an exponent,
    after one leading digit, from 1e21 on and below 1e-6. *)
Definition normal_number (n : number) : bool :=
  ends_nonzero (num_frac n) &&
  match num_exp n with
  | None =>
      (nb_digits (N.to_uint (num_int n)) + nb_digits (num_frac n) <=? 15)%nat &&
      (if (num_int n =? 0)%N then
         match num_frac n with
         | Nil => negb (num_neg n)
         | f => (leading_zeros f <=? 5)%nat
         end
       else true)
  | Some e =>
      (1 <=? num_int n)%N && (num_int n <=? 9)%N &&
      (nb_digits (num_frac n) <=? 14)%nat &&
      ((21 <=? e)%Z && (e <=? 300)%Z || (-300 <=? e)%Z && (e <=? -7)%Z)
  end.




(** An entry of the listing: the decoded bytes, or the bytes as a string
    when they are no JSON text. *)
Definition entry (result : string * string) : json :=
  match JSON_parse (snd result) with
  | Some record => record
  | None => JStr (snd result)
  end.

(** ** The sensor-asset contract *)

Import AssetTransfer.

(** The spec's names for the two errors of the contract. *)
Definition AlreadyExists (id : string) : error :=
  Error ("The asset " +:+ id +:+ " already exists").

Definition NotFound (id : string) : error :=
  Error ("The asset " +:+ id +:+ " does not exist").

(** A field set is an [Asset]; [CreateAsset] and [UpdateAsset] at a key [k]
    take its twelve fields after [ID], and build this record. *)
Definition record (k : string) (f : Asset) : object :=
  asset_literal k (SNR f) (VBAT f) (Latitude f) (Longitude f)
    (Gas_resistance f) (Temperature f) (Pressure f) (Humidity f) (Light f)
    (Gyroscope f) (Accelerometer f) (Owner f).

Definition Create (k : string) (f : Asset) : Tx unit :=
  CreateAsset k (SNR f) (VBAT f) (Latitude f) (Longitude f)
    (Gas_resistance f) (Temperature f) (Pressure f) (Humidity f) (Light f)
    (Gyroscope f) (Accelerometer f) (Owner f).

Definition Update (k : string) (f : Asset) : Tx unit :=
  UpdateAsset k (SNR f) (VBAT f) (Latitude f) (Longitude f)
    (Gas_resistance f) (Temperature f) (Pressure f) (Humidity f) (Light f)
    (Gyroscope f) (Accelerometer f) (Owner f).

(** The record of [k] and [f] with its keys in ascending order. *)
Definition sorted_record (k : string) (f : Asset) : object :=
  [ ("Accelerometer", numbers (Accelerometer f));
    ("Gas_resistance", JNum (Gas_resistance f));
    ("Gyroscope", numbers (Gyroscope f));
    ("Humidity", JNum (Humidity f));
    ("ID", JStr k);
    ("Latitude", JNum (Latitude f));
    ("Light", JNum (Light f));
    ("Longitude", JNum (Longitude f));
    ("Owner", JStr (Owner f));
    ("Pressure", JNum (Pressure f));
    ("SNR", JNum (SNR f));
    ("Temperature", JNum (Temperature f));
    ("VBAT", JNum (VBAT f)) ].

Definition with_owner (f : Asset) (owner : string) : Asset :=
  {| docType := docType f; ID := ID f; SNR := SNR f; VBAT := VBAT f;
     Latitude := Latitude f; Longitude := Longitude f;
     Gas_resistance := Gas_resistance f; Temperature := Temperature f;
     Pressure := Pressure f; Humidity := Humidity f; Light := Light f;
     Gyroscope := Gyroscope f; Accelerometer := Accelerometer f;
     Owner := owner |}.

(** The bytes that [InitLedger] writes for a seed record. *)
Definition seeded (a : Asset) : string :=
  encode (asset_object (set_docType a "asset")).

(** A record of the example scenario of the spec. *)
Definition sample : Asset :=
  {| docType := None; ID := "dev-1";
     SNR := Number false 0 (D5 Nil); VBAT := Number false 3 (D3 Nil);
     Latitude := Number false 0 Nil; Longitude := Number false 0 Nil;
     Gas_resistance := Number false 0 Nil; Temperature := Number false 0 Nil;
     Pressure := Number false 0 Nil; Humidity := Number false 0 Nil;
     Light := Number false 0 Nil; Gyroscope := []; Accelerometer := [];
     Owner := "X" |}.

(** The transactions of the contract, and the world state each one
    leaves. *)
Inductive invocation : Type :=
| Call_InitLedger
| Call_CreateAsset (k : string) (f : Asset)
| Call_ReadAsset (k : string)
| Call_UpdateAsset (k : string) (f : Asset)
| Call_DeleteAsset (k : string)
| Call_AssetExists (k : string)
| Call_TransferAsset (k : string) (newOwner : string)
| Call_GetAllAssets.

Definition commit (i : invocation) (ws : WorldState) : WorldState :=
  match i with
  | Call_InitLedger => snd (InitLedger ws)
  | Call_CreateAsset k f => snd (Create k f ws)
  | Call_ReadAsset k => snd (ReadAsset k ws)
  | Call_UpdateAsset k f => snd (Update k f ws)
  | Call_DeleteAsset k => snd (DeleteAsset k ws)
  | Call_AssetExists k => snd (AssetExists k ws)
  | Call_TransferAsset k newOwner => snd (TransferAsset k newOwner ws)
  | Call_GetAllAssets => snd (GetAllAssets ws)
  end.

(** The world states reached from the empty ledger. *)
Inductive reachable : WorldState -> Prop :=
| reachable_genesis : reachable ∅
| reachable_commit ws i : reachable ws -> reachable (commit i ws).

(** ** Transactions, failure and schema *)

(** What a transaction throws, if it throws. *)
Definition thrown {A : Type} (r : (error + A) * WorldState) : option error :=
  match fst r with
  | inl e => Some e
  | inr _ => None
  end.

Definition outcome (i : invocation) (ws : WorldState) : option error :=
  match i with
  | Call_InitLedger => thrown (InitLedger ws)
  | Call_CreateAsset k f => thrown (Create k f ws)
  | Call_ReadAsset k => thrown (ReadAsset k ws)
  | Call_UpdateAsset k f => thrown (Update k f ws)
  | Call_DeleteAsset k => thrown (DeleteAsset k ws)
  | Call_AssetExists k => thrown (AssetExists k ws)
  | Call_TransferAsset k newOwner => thrown (TransferAsset k newOwner ws)
  | Call_GetAllAssets => thrown (GetAllAssets ws)
  end.

(** The keys a transaction may write: its key argument, the seed
    identifiers for [InitLedger], none for the read-only ones. *)
Definition targets (i : invocation) : list string :=
  match i with
  | Call_InitLedger => map ID assets
  | Call_CreateAsset k _ | Call_UpdateAsset k _ | Call_DeleteAsset k
  | Call_TransferAsset k _ => [k]
  | Call_ReadAsset _ | Call_AssetExists _ | Call_GetAllAssets => []
  end.

(** Values on which the property write of [TransferAsset] throws. *)
Definition is_primitive (v : json) : bool :=
  match v with
  | JObj _ | JArr _ => false
  | _ => true
  end.

(** The records the contract stores at a key: the thirteen fields in
    ascending key order, with the key as [ID], and for a seed record the
    [docType] tag after them. *)
Definition tagged (o : object) : object := o ++ [("docType", JStr "asset")].

Definition shaped (k : string) (o : object) : Prop :=
  exists f, o = sorted_record k f \/ o = tagged (sorted_record k f).

Definition keyspace_shaped (ws : WorldState) : Prop :=
  forall k bytes, ws !! k = Some bytes ->
    exists o, shaped k o /\ bytes = JSON_stringify (JObj o).

(** ** The methane-level contract *)

Module Methane.

Import MethaneTransfer.

(** The errors of the contract, by the message they carry. *)
Definition AlreadyExists (timestamp : string) : error :=
  Error ("Data for timestamp " +:+ timestamp +:+ " already exists").

Definition NotFound (timestamp : string) : error :=
  Error ("Data for timestamp " +:+ timestamp +:+ " does not exist").

(** The record of a timestamp and a level with its keys in ascending
    order. *)
Definition sorted_record (timestamp : string) (methanelevel : number)
  : object :=
  [ ("Methanelevel", JNum methanelevel); ("Timestamp", JStr timestamp) ].

Definition shaped (timestamp : string) (o : object) : Prop :=
  exists methanelevel,
    o = sorted_record timestamp methanelevel \/
    o = tagged (sorted_record timestamp methanelevel).

(** The transactions of the contract, and the world state each one
    leaves. *)
Inductive invocation : Type :=
| Call_InitLedger
| Call_CreateAsset (timestamp : string) (methanelevel : number)
| Call_ReadAsset (timestamp : string)
| Call_UpdateAsset (timestamp : string) (methanelevel : number)
| Call_DeleteAsset (timestamp : string)
| Call_AssetExists (timestamp : string)
| Call_GetAllAssets.

Definition commit (i : invocation) (ws : WorldState) : WorldState :=
  match i with
  | Call_InitLedger => snd (InitLedger ws)
  | Call_CreateAsset t m => snd (CreateAsset t m ws)
  | Call_ReadAsset t => snd (ReadAsset t ws)
  | Call_UpdateAsset t m => snd (UpdateAsset t m ws)
  | Call_DeleteAsset t => snd (DeleteAsset t ws)
  | Call_AssetExists t => snd (AssetExists t ws)
  | Call_GetAllAssets => snd (GetAllAssets ws)
  end.

Inductive reachable : WorldState -> Prop :=
| reachable_genesis : reachable ∅
| reachable_commit ws i : reachable ws -> reachable (commit i ws).

End Methane.

(** * Properties *)

(** ** [JSON.parse] reads back what [JSON.stringify] writes *)

Lemma json_ind' (P : json -> Prop) :
  P JNull -> (forall b, P (JBool b)) -> (forall n, P (JNum n)) ->
  (forall s, P (JStr s)) ->
  (forall l, Forall P l -> P (JArr l)) ->
  (forall o, Forall (fun m => P (snd m)) o -> P (JObj o)) ->
  forall v, P v.
Proof.
  intros Hnull Hbool Hnum Hstr Harr Hobj. fix IH 1.
  intros [ | b | n | s | l | o ].
  - exact Hnull.
  - apply Hbool.
  - apply Hnum.
  - apply Hstr.
  - apply Harr. induction l as [|x l IHl]; constructor; [apply IH | exact IHl].
  - apply Hobj. induction o as [|[k x] o IHo]; constructor; [apply IH | exact IHo].
Qed.

Lemma skip_ws_start c s : is_ws c = false -> skip_ws (String c s) = String c s.
Proof. intros H. simpl. rewrite H. reflexivity. Qed.

Lemma lex_digits_stop s : head_digit s = false -> lex_digits s = (Nil, s).
Proof.
  destruct s as [|c s]; simpl; [reflexivity|].
  unfold is_digit. destruct (digit_of c); [discriminate|reflexivity].
Qed.

Lemma lex_digits_text d k :
  head_digit k = false -> lex_digits (uint_text d k) = (d, k).
Proof.
  intros Hk. induction d; simpl; try (rewrite IHd; reflexivity).
  apply lex_digits_stop, Hk.
Qed.

Lemma parse_string_body_eq c s1 :
  parse_string_body (String c s1) =
      if Ascii.eqb c "034" then Some (EmptyString, s1)
      else if Ascii.eqb c "\" then
        match s1 with
        | EmptyString => None
        | String e s2 =>
            if Ascii.eqb e "u" then
              match s2 with
              | String h1 (String h2 (String h3 (String h4 s3))) =>
                  match hex4 h1 h2 h3 h4, parse_string_body s3 with
                  | Some cp, Some (body, r) =>
                      match utf8_text cp body with
                      | Some body' => Some (body', r)
                      | None => None
                      end
                  | _, _ => None
                  end
              | _ => None
              end
            else
              match unescape e, parse_string_body s2 with
              | Some c', Some (body, r) => Some (String c' body, r)
              | _, _ => None
              end
        end
      else if (N_of_ascii c <? 32)%N then None
      else
        match parse_string_body s1 with
        | Some (body, r) => Some (String c body, r)
        | None => None
        end.
Proof. reflexivity. Qed.

Lemma escape_char_body c rest body r :
  parse_string_body rest = Some (body, r) ->
  parse_string_body (escape_char c rest) = Some (String c body, r).
Proof.
  intros H.
  destruct c as [[] [] [] [] [] [] [] []];
    match goal with
    | |- context [escape_char ?c ?k] =>
        let e := eval cbv in (escape_char c k) in
        change (escape_char c k) with e
    end;
    rewrite parse_string_body_eq; cbv -[parse_string_body];
    rewrite H; reflexivity.
Qed.

Lemma parse_string_body_escape s k :
  parse_string_body (escape s (String "034" k)) = Some (s, k).
Proof.
  induction s as [|c s IH]; simpl; [reflexivity|].
  apply escape_char_body, IH.
Qed.

Lemma fraction_follow_head_digit k :
  fraction_follow k = true -> head_digit k = false.
Proof.
  destruct k as [|c k]; simpl; [reflexivity|].
  destruct (is_digit c); [discriminate|reflexivity].
Qed.

Lemma follow_fraction k : follow k = true -> fraction_follow k = true.
Proof. unfold follow. intros H. apply andb_true_iff in H as [H _]. exact H. Qed.

Lemma follow_head_digit k : follow k = true -> head_digit k = false.
Proof. intros H. apply fraction_follow_head_digit, follow_fraction, H. Qed.

Lemma digit_facts c :
  is_digit c = true ->
  classify c = TNumber /\ is_ws c = false /\ Ascii.eqb c "-" = false /\
  Ascii.eqb "]" c = false /\ Ascii.eqb "}" c = false.
Proof.
  destruct c as [[] [] [] [] [] [] [] []]; intros H; try discriminate H;
    repeat split; reflexivity.
Qed.

Lemma to_uint_norm n : unorm (N.to_uint n) = N.to_uint n.
Proof.
  rewrite <- (DecimalN.Unsigned.to_of (N.to_uint n)).
  rewrite DecimalN.Unsigned.of_to. reflexivity.
Qed.

Lemma to_uint_nonnil n : N.to_uint n <> Nil.
Proof. rewrite <- to_uint_norm. apply unorm_nonnil. Qed.

Lemma uint_text_head d k :
  d <> Nil -> exists c r, uint_text d k = String c r /\ is_digit c = true.
Proof. destruct d; intros H; try congruence; simpl; eauto. Qed.

Lemma parse_fraction_text f k :
  fraction_follow k = true ->
  parse_fraction (fraction_text f k) = Some (f, k).
Proof.
  intros Hk.
  assert (Hd : lex_digits (uint_text f k) = (f, k))
    by (apply lex_digits_text, fraction_follow_head_digit, Hk).
  destruct f; try (unfold parse_fraction, fraction_text; simpl Ascii.eqb; cbv iota; rewrite Hd; reflexivity).
  destruct k as [|c k]; [reflexivity|]. simpl in Hk |- *.
  destruct (Ascii.eqb c "."); [|reflexivity].
  rewrite andb_false_r in Hk. discriminate.
Qed.

Lemma exponent_text_follow e k :
  follow k = true -> fraction_follow (exponent_text e k) = true.
Proof. destruct e; [reflexivity | apply follow_fraction]. Qed.

Lemma parse_exponent_text e k :
  follow k = true -> parse_exponent (exponent_text e k) = Some (e, k).
Proof.
  intros Hk. destruct e as [z|].
  - unfold exponent_text, parse_exponent.
    replace (Ascii.eqb "e" "e" || Ascii.eqb "e" "E") with true by reflexivity.
    assert (Hd : lex_digits (uint_text (N.to_uint (Z.abs_N z)) k)
                 = (N.to_uint (Z.abs_N z), k))
      by (apply lex_digits_text, follow_head_digit, Hk).
    destruct (z <? 0)%Z eqn:Hz; cbn [parse_exponent_sign];
      [replace (Ascii.eqb "-" "-") with true by reflexivity
      |replace (Ascii.eqb "+" "-") with false by reflexivity;
       replace (Ascii.eqb "+" "+") with true by reflexivity];
      rewrite Hd, DecimalN.Unsigned.of_to;
      (destruct (N.to_uint (Z.abs_N z)) eqn:E;
        [destruct (to_uint_nonnil _ E)|..]); do 3 f_equal;
      first [apply Z.ltb_lt in Hz | apply Z.ltb_ge in Hz]; lia.
  - destruct k as [|c k]; [reflexivity|].
    unfold follow in Hk. apply andb_true_iff in Hk as [_ Hk].
    cbn [exponent_text parse_exponent].
    destruct (Ascii.eqb c "e" || Ascii.eqb c "E"); [discriminate|reflexivity].
Qed.

Lemma parse_number_text n k :
  follow k = true -> parse_number (number_text n k) = Some (n, k).
Proof.
  intros Hk. destruct n as [neg i f e]. unfold number_text.
  cbn [num_neg num_int num_frac num_exp]. cbv zeta.
  set (frac := fraction_text f (exponent_text e k)).
  assert (Hfrac : head_digit frac = false).
  { subst frac. destruct f; try reflexivity.
    apply fraction_follow_head_digit, exponent_text_follow, Hk. }
  assert (Hsign : parse_sign (if neg then String "-" (uint_text (N.to_uint i) frac)
                              else uint_text (N.to_uint i) frac)
                  = (neg, uint_text (N.to_uint i) frac)).
  { destruct neg; [reflexivity|].
    destruct (uint_text_head (N.to_uint i) frac (to_uint_nonnil i))
      as (c & r & -> & Hc).
    apply digit_facts in Hc as (_ & _ & Hc & _). simpl. rewrite Hc. reflexivity. }
  unfold parse_number. rewrite Hsign, (lex_digits_text _ _ Hfrac).
  destruct (uint_eq_dec (unorm (N.to_uint i)) (N.to_uint i)) as [_|Hn];
    [|destruct Hn; apply to_uint_norm].
  subst frac.
  rewrite (parse_fraction_text f _ (exponent_text_follow e k Hk)).
  rewrite (parse_exponent_text e k Hk).
  rewrite DecimalN.Unsigned.of_to. reflexivity.
Qed.

Lemma wf_arr l : wf (JArr l) <-> Forall wf l.
Proof.
  induction l as [|x l IH]; simpl.
  - split; auto.
  - split.
    + intros [Hx Hl]. constructor; [exact Hx | apply IH, Hl].
    + intros H. inversion H; subst. split; [assumption | apply IH; assumption].
Qed.

Lemma wf_obj o : wf (JObj o) <-> NoDup (map fst o) /\ Forall (fun m => wf (snd m)) o.
Proof.
  simpl. apply and_iff_compat_l.
  induction o as [|[k x] o IH]; simpl.
  - split; auto.
  - split.
    + intros [Hx Hl]. constructor; [exact Hx | apply IH, Hl].
    + intros H. inversion H; subst. split; [assumption | apply IH; assumption].
Qed.

Lemma obj_set_fresh o k x :
  ~ In k (map fst o) -> obj_set o k x = o ++ [(k, x)].
Proof.
  induction o as [|[k' v] o IH]; simpl; intros H; [reflexivity|].
  destruct (String.eqb_spec k' k) as [->|Hne]; [tauto|].
  rewrite IH; [reflexivity | tauto].
Qed.

Lemma build_object_nodup ms : NoDup (map fst ms) -> build_object ms = ms.
Proof.
  unfold build_object.
  enough (H : forall acc, NoDup (map fst (acc ++ ms)) ->
            fold_left (fun o m => obj_set o (fst m) (snd m)) ms acc = acc ++ ms)
    by (intros Hnd; apply (H [] Hnd)).
  induction ms as [|[k x] ms IH]; intros acc Hnd; simpl.
  - rewrite app_nil_r. reflexivity.
  - rewrite obj_set_fresh.
    + rewrite IH; rewrite <- app_assoc; [reflexivity | exact Hnd].
    + rewrite map_app in Hnd. apply NoDup_app in Hnd as (_ & Hnd & _).
      intros Hin. apply (Hnd k); [apply list_elem_of_In, Hin | simpl; left].
Qed.

Lemma number_text_head n k :
  exists c r, number_text n k = String c r /\ classify c = TNumber /\ value_start c.
Proof.
  destruct n as [[] i f e]; unfold number_text;
    cbn [num_neg num_int num_frac num_exp]; cbv zeta.
  - eexists _, _. split; [reflexivity|]. repeat split; reflexivity.
  - destruct (uint_text_head (N.to_uint i)
                (fraction_text f (exponent_text e k)) (to_uint_nonnil i))
      as (c & r & -> & Hc).
    exists c, r. split; [reflexivity|].
    apply digit_facts in Hc as (? & ? & ? & ? & ?). repeat split; assumption.
Qed.

Lemma print_head v k : exists c r, print v k = String c r /\ value_start c.
Proof.
  destruct v as [ | [] | n | s | l | o ];
    try (eexists _, _; split; [reflexivity | repeat split; reflexivity]).
  destruct (number_text_head n k) as (c & r & H & _ & Hc). eauto.
Qed.

Lemma parse_value_number fuel c s :
  classify c = TNumber -> is_ws c = false ->
  parse_value (S fuel) (String c s) =
  match parse_number (String c s) with
  | Some (n, r) => Some (JNum n, r)
  | None => None
  end.
Proof. intros Hc Hw. cbn [parse_value skip_ws]. rewrite Hw, Hc. reflexivity. Qed.

Lemma parse_elements_more fuel s v rest :
  parse_value fuel s = Some (v, String "," rest) ->
  parse_elements (S fuel) s =
  match parse_elements fuel rest with
  | Some (l, r) => Some (v :: l, r)
  | None => None
  end.
Proof. intros H. cbn [parse_elements]. rewrite H. reflexivity. Qed.

Lemma parse_elements_last fuel s v rest :
  parse_value fuel s = Some (v, String "]" rest) ->
  parse_elements (S fuel) s = Some ([v], rest).
Proof. intros H. cbn [parse_elements]. rewrite H. reflexivity. Qed.

Lemma parse_elements_print k :
  follow k = true ->
  forall t x fuel,
    parses x -> Forall parses t ->
    S (size x + size_elems t) <= fuel ->
    parse_elements fuel (print x (print_elems k t)) = Some (x :: t, k).
Proof.
  intros Hk. induction t as [|y t IH]; intros x fuel Hx Ht Hfuel;
    (destruct fuel as [|fuel]; [lia|]).
  - apply parse_elements_last, Hx; [simpl in Hfuel; lia | reflexivity].
  - change (size_elems (y :: t)) with (S (size y + size_elems t)) in Hfuel.
    change (print_elems k (y :: t))
      with (String "," (print y (print_elems k t))).
    rewrite (parse_elements_more fuel _ x (print y (print_elems k t)));
      [|apply Hx; [lia | reflexivity]].
    inversion Ht as [|? ? Hy Ht']; subst.
    rewrite (IH y fuel Hy Ht'); [reflexivity | lia].
Qed.

Lemma parse_members_more fuel name s v rest :
  parse_value fuel s = Some (v, String "," rest) ->
  parse_members (S fuel) (quote name (String ":" s)) =
  match parse_members fuel rest with
  | Some (ms, r) => Some ((name, v) :: ms, r)
  | None => None
  end.
Proof.
  intros H. cbn [parse_members]. unfold quote.
  rewrite skip_ws_start by reflexivity. cbn [starts_with].
  replace (Ascii.eqb "034" "034") with true by reflexivity.
  rewrite parse_string_body_escape.
  rewrite skip_ws_start by reflexivity. cbn [starts_with].
  replace (Ascii.eqb ":" ":") with true by reflexivity.
  rewrite H. reflexivity.
Qed.

Lemma parse_members_last fuel name s v rest :
  parse_value fuel s = Some (v, String "}" rest) ->
  parse_members (S fuel) (quote name (String ":" s)) = Some ([(name, v)], rest).
Proof.
  intros H. cbn [parse_members]. unfold quote.
  rewrite skip_ws_start by reflexivity. cbn [starts_with].
  replace (Ascii.eqb "034" "034") with true by reflexivity.
  rewrite parse_string_body_escape.
  rewrite skip_ws_start by reflexivity. cbn [starts_with].
  replace (Ascii.eqb ":" ":") with true by reflexivity.
  rewrite H. reflexivity.
Qed.

Lemma parse_members_print k :
  follow k = true ->
  forall t name x fuel,
    parses x -> Forall (fun m => parses (snd m)) t ->
    S (size x + size_members t) <= fuel ->
    parse_members fuel (quote name (String ":" (print x (print_members k t))))
    = Some ((name, x) :: t, k).
Proof.
  intros Hk. induction t as [|[m y] t IH]; intros name x fuel Hx Ht Hfuel;
    (destruct fuel as [|fuel]; [lia|]).
  - apply parse_members_last, Hx; [simpl in Hfuel; lia | reflexivity].
  - change (size_members ((m, y) :: t)) with (S (size y + size_members t)) in Hfuel.
    change (print_members k ((m, y) :: t))
      with (String "," (quote m (String ":" (print y (print_members k t))))).
    rewrite (parse_members_more fuel name _ x
               (quote m (String ":" (print y (print_members k t)))));
      [|apply Hx; [lia | reflexivity]].
    inversion Ht as [|? ? Hy Ht']; subst.
    rewrite (IH m y fuel Hy Ht'); [reflexivity | lia].
Qed.

Lemma parse_print v : wf v -> parses v.
Proof.
  induction v as [ | b | n | s | l IH | o IH ] using json_ind';
    intros Hwf fuel k Hfuel Hk;
    (destruct fuel as [|fuel]; [simpl in Hfuel; lia|]).
  - reflexivity.
  - destruct b; reflexivity.
  - cbn [print].
    destruct (number_text_head n k) as (c & r & E & Hc & Hw & _).
    rewrite E, (parse_value_number fuel c r Hc Hw), <- E.
    rewrite parse_number_text by exact Hk. reflexivity.
  - cbn [print parse_value]. unfold quote.
    rewrite skip_ws_start by reflexivity.
    replace (classify "034") with TString by reflexivity. cbv iota.
    rewrite parse_string_body_escape. reflexivity.
  - apply wf_arr in Hwf.
    assert (Hl : Forall parses l).
    { clear Hfuel. induction IH; inversion Hwf; subst; constructor; auto. }
    destruct l as [|x t]; [reflexivity|].
    change (print (JArr (x :: t)) k)
      with (String "[" (print x (print_elems k t))).
    change (size (JArr (x :: t))) with (S (S (size x + size_elems t))) in Hfuel.
    inversion Hl as [|? ? Hx Ht]; subst.
    cbn [parse_value]. rewrite skip_ws_start by reflexivity.
    replace (classify "[") with TArray by reflexivity. cbv iota.
    destruct (print_head x (print_elems k t)) as (c & r & E & Hw & Hc & _).
    rewrite E at 1. rewrite skip_ws_start by exact Hw.
    cbn [starts_with]. rewrite Hc.
    rewrite (parse_elements_print k Hk t x fuel Hx Ht); [reflexivity | lia].
  - apply wf_obj in Hwf as [Hnd Hwf].
    assert (Hl : Forall (fun m => parses (snd m)) o).
    { clear Hfuel Hnd. induction IH; inversion Hwf; subst; constructor; auto. }
    destruct o as [|[name x] t]; [reflexivity|].
    change (print (JObj ((name, x) :: t)) k)
      with (String "{" (quote name (String ":" (print x (print_members k t))))).
    change (size (JObj ((name, x) :: t)))
      with (S (S (size x + size_members t))) in Hfuel.
    inversion Hl as [|? ? Hx Ht]; subst.
    cbn [parse_value]. rewrite skip_ws_start by reflexivity.
    replace (classify "{") with TObject by reflexivity. cbv iota.
    unfold quote at 1. rewrite skip_ws_start by reflexivity.
    cbn [starts_with]. replace (Ascii.eqb "}" "034") with false by reflexivity.
    fold (quote name (String ":" (print x (print_members k t)))).
    rewrite (parse_members_print k Hk t name x fuel Hx Ht); [|lia].
    rewrite build_object_nodup by exact Hnd. reflexivity.
Qed.

Lemma uint_text_length d k : String.length k <= String.length (uint_text d k).
Proof. induction d; simpl; lia. Qed.

Lemma escape_char_length c k : String.length k < String.length (escape_char c k).
Proof.
  unfold escape_char.
  repeat match goal with |- context [if ?b then _ else _] => destruct b end;
    simpl; lia.
Qed.

Lemma escape_length s k : String.length k <= String.length (escape s k).
Proof.
  induction s as [|c s IH]; simpl; [lia|].
  pose proof (escape_char_length c (escape s k)). lia.
Qed.

Lemma quote_length s k : 2 + String.length k <= String.length (quote s k).
Proof.
  unfold quote. simpl.
  pose proof (escape_length s (String "034" k)). simpl in *. lia.
Qed.

Lemma uint_text_longer d k :
  d <> Nil -> S (String.length k) <= String.length (uint_text d k).
Proof.
  destruct d; intros H; try congruence; simpl;
    match goal with |- context [uint_text ?u k] =>
      pose proof (uint_text_length u k) end; lia.
Qed.

Lemma fraction_text_length f k :
  String.length k <= String.length (fraction_text f k).
Proof.
  pose proof (uint_text_length f k).
  unfold fraction_text. destruct f; simpl in *; lia.
Qed.

Lemma exponent_text_length e k :
  String.length k <= String.length (exponent_text e k).
Proof.
  destruct e as [z|]; simpl; [|lia].
  pose proof (uint_text_length (N.to_uint (Z.abs_N z)) k). lia.
Qed.

Lemma number_text_length n k :
  1 + String.length k <= String.length (number_text n k).
Proof.
  pose proof (uint_text_longer (N.to_uint (num_int n))
                (fraction_text (num_frac n) (exponent_text (num_exp n) k))
                (to_uint_nonnil _)).
  pose proof (fraction_text_length (num_frac n) (exponent_text (num_exp n) k)).
  pose proof (exponent_text_length (num_exp n) k).
  unfold number_text. cbv zeta. destruct (num_neg n); simpl; lia.
Qed.

Lemma print_length v : forall k, size v + String.length k <= String.length (print v k).
Proof.
  induction v as [ | b | n | s | l IH | o IH ] using json_ind'; intros k.
  - simpl. lia.
  - destruct b; simpl; lia.
  - pose proof (number_text_length n k). simpl in *. lia.
  - pose proof (quote_length s k). simpl in *. lia.
  - destruct l as [|x t]; [simpl; lia|].
    change (print (JArr (x :: t)) k)
      with (String "[" (print x (print_elems k t))).
    change (size (JArr (x :: t))) with (S (S (size x + size_elems t))).
    inversion IH as [|? ? Hx Ht]; subst.
    assert (Hel : size_elems t + S (String.length k)
                  <= String.length (print_elems k t)).
    { clear Hx IH. induction Ht as [|y t Hy Ht IHt]; [simpl; lia|].
      change (print_elems k (y :: t))
        with (String "," (print y (print_elems k t))).
      change (size_elems (y :: t)) with (S (size y + size_elems t)).
      specialize (Hy (print_elems k t)). simpl. lia. }
    specialize (Hx (print_elems k t)). simpl. lia.
  - destruct o as [|[name x] t]; [simpl; lia|].
    change (print (JObj ((name, x) :: t)) k)
      with (String "{" (quote name (String ":" (print x (print_members k t))))).
    change (size (JObj ((name, x) :: t)))
      with (S (S (size x + size_members t))).
    inversion IH as [|? ? Hx Ht]; subst. simpl in Hx.
    assert (Hel : size_members t + S (String.length k)
                  <= String.length (print_members k t)).
    { clear Hx IH. induction Ht as [|[m y] t Hy Ht IHt]; [simpl; lia|].
      change (print_members k ((m, y) :: t))
        with (String "," (quote m (String ":" (print y (print_members k t))))).
      change (size_members ((m, y) :: t)) with (S (size y + size_members t)).
      specialize (Hy (print_members k t)). simpl in Hy.
      pose proof (quote_length m (String ":" (print y (print_members k t)))).
      simpl in *. lia. }
    specialize (Hx (print_members k t)).
    pose proof (quote_length name (String ":" (print x (print_members k t)))).
    simpl in *. lia.
Qed.

Theorem parse_stringify v : wf v -> JSON_parse (JSON_stringify v) = Some v.
Proof.
  intros Hwf. unfold JSON_parse, JSON_stringify.
  rewrite (parse_print v Hwf); [reflexivity | | reflexivity].
  pose proof (print_length v ""). simpl in *. lia.
Qed.

Lemma stringify_nonempty v : JSON_stringify v <> "".
Proof.
  unfold JSON_stringify. destruct (print_head v "") as (c & r & -> & _).
  discriminate.
Qed.

(** ** The encoder *)

Section SortByKey.
Context {A : Type}.
Implicit Types (m : string * A) (l : list (string * A)).

#[local] Instance key_le_trans : Transitive (@key_le A).
Proof. intros x y z. unfold key_le. apply transitivity. Qed.

Lemma key_le_leb m1 m2 : key_le m1 m2 <-> String.leb (fst m1) (fst m2) = true.
Proof. unfold key_le, String.le. apply Is_true_true. Qed.

Lemma key_le_not m1 m2 : String.leb (fst m1) (fst m2) = false -> key_le m2 m1.
Proof.
  intros H. destruct (total String.le (fst m1) (fst m2)) as [Hle|Hle];
    [|exact Hle].
  apply key_le_leb in Hle. congruence.
Qed.

Lemma insert_by_key_perm m l : insert_by_key m l ≡ₚ m :: l.
Proof.
  induction l as [|m' l IH]; simpl; [reflexivity|].
  destruct (String.leb (fst m) (fst m')); [reflexivity|].
  rewrite IH. apply perm_swap.
Qed.

Lemma sort_by_key_perm l : sort_by_key l ≡ₚ l.
Proof.
  induction l as [|m l IH]; simpl; [reflexivity|].
  rewrite insert_by_key_perm, IH. reflexivity.
Qed.

Lemma insert_by_key_sorted m l :
  StronglySorted key_le l -> StronglySorted key_le (insert_by_key m l).
Proof.
  induction 1 as [|m' l Hl IH Hm']; simpl.
  - repeat constructor.
  - destruct (String.leb (fst m) (fst m')) eqn:E.
    + apply key_le_leb in E. constructor.
      * constructor; assumption.
      * constructor; [exact E|].
        eapply Forall_impl; [exact Hm'|]. intros x Hx. etrans; eassumption.
    + constructor; [exact IH|].
      rewrite insert_by_key_perm. constructor; [|exact Hm'].
      apply key_le_not, E.
Qed.

Lemma sort_by_key_sorted l : StronglySorted key_le (sort_by_key l).
Proof.
  induction l as [|m l IH]; simpl; [constructor|].
  apply insert_by_key_sorted, IH.
Qed.

Lemma sort_by_key_keys l : map fst (sort_by_key l) ≡ₚ map fst l.
Proof. apply Permutation_map, sort_by_key_perm. Qed.

Lemma NoDup_keys_eq l m1 m2 :
  NoDup (map fst l) -> m1 ∈ l -> m2 ∈ l -> fst m1 = fst m2 -> m1 = m2.
Proof.
  induction l as [|m l IH]; simpl; intros Hnd H1 H2 E.
  - inversion H1.
  - apply NoDup_cons in Hnd as [Hm Hnd].
    apply elem_of_cons in H1 as [->|H1], H2 as [->|H2]; auto.
    + destruct Hm. rewrite E. apply list_elem_of_fmap_2, H2.
    + destruct Hm. rewrite <- E. apply list_elem_of_fmap_2, H1.
Qed.

(** The sorted list of a mapping does not depend on the order in which the
    mapping lists its properties. *)
Lemma sort_by_key_unique l1 l2 :
  NoDup (map fst l1) -> l1 ≡ₚ l2 -> sort_by_key l1 = sort_by_key l2.
Proof.
  intros Hnd Hp.
  apply (StronglySorted_unique_strong key_le);
    [|apply sort_by_key_sorted..|].
  - intros m1 m2 H1 H2 H12 H21.
    rewrite sort_by_key_perm in H1. rewrite sort_by_key_perm, <- Hp in H2.
    apply (NoDup_keys_eq l1); auto.
    apply (anti_symm String.le); assumption.
  - rewrite !sort_by_key_perm. exact Hp.
Qed.

Lemma sort_by_key_id l : StronglySorted key_le l -> sort_by_key l = l.
Proof.
  induction 1 as [|m l Hl IH Hm]; simpl; [reflexivity|].
  rewrite IH. destruct l as [|m' l']; simpl; [reflexivity|].
  inversion Hm as [|? ? Hmm' _]; subst.
  apply key_le_leb in Hmm'. rewrite Hmm'. reflexivity.
Qed.

Lemma sort_by_key_idem l : sort_by_key (sort_by_key l) = sort_by_key l.
Proof. apply sort_by_key_id, sort_by_key_sorted. Qed.
End SortByKey.

Lemma insert_by_key_map {A B} (f : A -> B) (m : string * A) l :
  map (fun m => (fst m, f (snd m))) (insert_by_key m l)
  = insert_by_key (fst m, f (snd m)) (map (fun m => (fst m, f (snd m))) l).
Proof.
  induction l as [|m' l IH]; simpl; [reflexivity|].
  destruct (String.leb (fst m) (fst m')); simpl; [reflexivity|].
  rewrite IH. reflexivity.
Qed.

Lemma sort_by_key_map {A B} (f : A -> B) (l : list (string * A)) :
  map (fun m => (fst m, f (snd m))) (sort_by_key l)
  = sort_by_key (map (fun m => (fst m, f (snd m))) l).
Proof.
  induction l as [|m l IH]; simpl; [reflexivity|].
  rewrite insert_by_key_map, IH. reflexivity.
Qed.

Lemma sortKeysRecursive_obj o :
  sortKeysRecursive (JObj o) = JObj (sort_by_key (map sort_member o)).
Proof. reflexivity. Qed.

Lemma sort_member_keys o : map fst (map sort_member o) = map fst o.
Proof. rewrite map_map. apply map_ext. reflexivity. Qed.

Lemma sortKeysRecursive_idem v :
  sortKeysRecursive (sortKeysRecursive v) = sortKeysRecursive v.
Proof.
  induction v as [ | b | n | s | l IH | o IH ] using json_ind';
    try reflexivity.
  - simpl. f_equal. rewrite map_map. apply map_ext_Forall, IH.
  - rewrite !sortKeysRecursive_obj. f_equal.
    unfold sort_member at 1. rewrite sort_by_key_map.
    fold sort_member. rewrite sort_by_key_idem. f_equal.
    rewrite map_map. apply map_ext_Forall.
    eapply Forall_impl; [exact IH|]. intros [k x] Hx. unfold sort_member.
    simpl in *. rewrite Hx. reflexivity.
Qed.

Lemma sortKeysRecursive_wf v : wf v -> wf (sortKeysRecursive v).
Proof.
  induction v as [ | b | n | s | l IH | o IH ] using json_ind';
    try (intros; exact I).
  - intros Hl. apply wf_arr in Hl.
    change (wf (JArr (map sortKeysRecursive l))). apply wf_arr.
    apply Forall_map.
    induction IH; inversion Hl; subst; constructor; auto.
  - rewrite sortKeysRecursive_obj, !wf_obj. intros [Hnd Hl]. split.
    + rewrite sort_by_key_keys, sort_member_keys. exact Hnd.
    + rewrite sort_by_key_perm. apply Forall_map. clear Hnd.
      induction IH; inversion Hl; subst; constructor; auto.
Qed.

(** ** Ledger access *)






Lemma occupied_insert ws key bytes :
  bytes <> "" -> occupied (<[key := bytes]> ws) key = true.
Proof.
  intros H. unfold occupied. rewrite lookup_insert_eq.
  destruct bytes; [congruence | reflexivity].
Qed.

Lemma occupied_insert_ne ws key key' bytes :
  key <> key' -> occupied (<[key := bytes]> ws) key' = occupied ws key'.
Proof. intros H. unfold occupied. rewrite lookup_insert_ne by exact H. reflexivity. Qed.

Lemma occupied_delete ws key : occupied (delete key ws) key = false.
Proof. unfold occupied. rewrite lookup_delete_eq. reflexivity. Qed.

Lemma occupied_lookup ws key :
  occupied ws key = true <-> exists bytes, ws !! key = Some bytes /\ bytes <> "".
Proof.
  unfold occupied. destruct (ws !! key) as [bytes|]; split.
  - intros H. exists bytes. split; [reflexivity|]. intros ->. discriminate H.
  - intros (b & [= <-] & H). destruct bytes; [congruence | reflexivity].
  - discriminate.
  - intros (b & H & _). discriminate H.
Qed.

(** ** The sensor-asset contract *)

Lemma sort_numbers l : sortKeysRecursive (numbers l) = numbers l.
Proof.
  unfold numbers. simpl. f_equal. rewrite map_map. apply map_ext. reflexivity.
Qed.

Lemma wf_numbers l : wf (numbers l).
Proof. apply wf_arr, Forall_map, Forall_forall. intros; exact I. Qed.

Lemma sorted_record_eq k f :
  sorted_record k f = sort_by_key (map sort_member (record k f)).
Proof.
  unfold record, asset_literal.
  cbn [map]. unfold sort_member. cbn [fst snd]. rewrite !sort_numbers.
  reflexivity.
Qed.

Lemma sort_record k f :
  sortKeysRecursive (JObj (record k f)) = JObj (sorted_record k f).
Proof. rewrite sortKeysRecursive_obj, sorted_record_eq. reflexivity. Qed.

Lemma NoDup_keys_record k f : NoDup (map fst (record k f)).
Proof. apply (bool_decide_unpack _). vm_compute. exact I. Qed.

Lemma wf_record k f : wf (JObj (record k f)).
Proof.
  apply wf_obj. split; [apply NoDup_keys_record|].
  unfold record, asset_literal.
  repeat (constructor; [first [exact I | apply wf_numbers]|]). constructor.
Qed.

Lemma encode_nonempty o : encode o <> "".
Proof. apply stringify_nonempty. Qed.

Lemma parse_encode o :
  wf (JObj o) -> JSON_parse (encode o) = Some (sortKeysRecursive (JObj o)).
Proof. intros H. apply parse_stringify, sortKeysRecursive_wf, H. Qed.

Lemma parse_encode_record k f :
  JSON_parse (encode (record k f)) = Some (JObj (sorted_record k f)).
Proof. rewrite parse_encode by apply wf_record. rewrite sort_record. reflexivity. Qed.

Lemma AssetExists_run id ws : AssetExists id ws = (inr (occupied ws id), ws).
Proof. reflexivity. Qed.

Lemma CreateAsset_run k f ws :
  Create k f ws =
  if occupied ws k then (inl (AlreadyExists k), ws)
  else (inr tt, <[k := encode (record k f)]> ws).
Proof.
  unfold Create, CreateAsset, bind. rewrite AssetExists_run.
  destruct (occupied ws k); reflexivity.
Qed.

Lemma UpdateAsset_run k f ws :
  Update k f ws =
  if occupied ws k then (inr tt, <[k := encode (record k f)]> ws)
  else (inl (NotFound k), ws).
Proof.
  unfold Update, UpdateAsset, bind. rewrite AssetExists_run.
  destruct (occupied ws k); reflexivity.
Qed.

Lemma DeleteAsset_run k ws :
  DeleteAsset k ws =
  if occupied ws k then (inr tt, delete k ws) else (inl (NotFound k), ws).
Proof.
  unfold DeleteAsset, bind. rewrite AssetExists_run.
  destruct (occupied ws k); reflexivity.
Qed.

Lemma ReadAsset_run k ws :
  ReadAsset k ws =
  match ws !! k with
  | Some bytes =>
      if Nat.eqb (String.length bytes) 0 then (inl (NotFound k), ws)
      else (inr bytes, ws)
  | None => (inl (NotFound k), ws)
  end.
Proof.
  unfold ReadAsset, bind, getState. destruct (ws !! k) as [bytes|]; [|reflexivity].
  destruct (Nat.eqb (String.length bytes) 0); reflexivity.
Qed.

Lemma ReadAsset_stored k bytes ws :
  ws !! k = Some bytes -> bytes <> "" -> ReadAsset k ws = (inr bytes, ws).
Proof.
  intros H Hne. rewrite ReadAsset_run, H.
  destruct bytes; [congruence | reflexivity].
Qed.

Lemma ReadAsset_absent k ws :
  occupied ws k = false -> ReadAsset k ws = (inl (NotFound k), ws).
Proof.
  unfold occupied. rewrite ReadAsset_run.
  destruct (ws !! k) as [bytes|]; [|reflexivity].
  destruct (Nat.eqb (String.length bytes) 0); [reflexivity | discriminate].
Qed.

Lemma TransferAsset_run k newOwner o ws :
  ws !! k = Some (stringify (JObj o)) -> wf (JObj o) ->
  TransferAsset k newOwner ws =
  (inr (obj_get o "Owner"),
   <[k := encode (obj_set o "Owner" (JStr newOwner))]> ws).
Proof.
  intros Hk Hwf. unfold TransferAsset, bind.
  rewrite (ReadAsset_stored k _ ws Hk) by apply stringify_nonempty.
  unfold parse, stringify. rewrite parse_stringify by exact Hwf.
  reflexivity.
Qed.

(** ** Objects as mappings *)

Lemma obj_get_set o n x name :
  obj_get (obj_set o n x) name =
  if String.eqb n name then Some x else obj_get o name.
Proof.
  induction o as [|[k v] o IH]; simpl.
  - reflexivity.
  - destruct (String.eqb_spec k n) as [->|Hkn]; simpl.
    + destruct (String.eqb n name); reflexivity.
    + rewrite IH. destruct (String.eqb_spec k name) as [->|Hk]; [|reflexivity].
      destruct (String.eqb_spec n name) as [->|]; [congruence | reflexivity].
Qed.

Lemma obj_get_Some o name v :
  NoDup (map fst o) -> (obj_get o name = Some v <-> (name, v) ∈ o).
Proof.
  induction o as [|[k x] o IH]; simpl; intros Hnd.
  - split; [discriminate | intros H; inversion H].
  - apply NoDup_cons in Hnd as [Hk Hnd].
    destruct (String.eqb_spec k name) as [->|Hne].
    + split.
      * intros [= ->]. left.
      * intros [[= ->]|H]%elem_of_cons; [reflexivity|].
        destruct Hk. apply (list_elem_of_fmap_2 fst) in H. exact H.
    + rewrite IH by exact Hnd. split.
      * intros H. right. exact H.
      * intros [[= -> ->]|H]%elem_of_cons; [congruence | exact H].
Qed.

Lemma obj_get_perm o1 o2 name :
  NoDup (map fst o1) -> o1 ≡ₚ o2 -> obj_get o1 name = obj_get o2 name.
Proof.
  intros Hnd Hp.
  assert (Hnd2 : NoDup (map fst o2)) by (rewrite <- Hp; exact Hnd).
  destruct (obj_get o1 name) as [v|] eqn:E1.
  - symmetry. apply obj_get_Some; [exact Hnd2|]. rewrite <- Hp.
    apply obj_get_Some; assumption.
  - destruct (obj_get o2 name) as [v|] eqn:E2; [|reflexivity].
    apply obj_get_Some in E2; [|exact Hnd2]. rewrite <- Hp in E2.
    apply obj_get_Some in E2; [|exact Hnd]. congruence.
Qed.

Lemma obj_get_sort_member o name :
  obj_get (map sort_member o) name = sortKeysRecursive <$> obj_get o name.
Proof.
  induction o as [|[k v] o IH]; simpl; [reflexivity|].
  destruct (String.eqb k name); [reflexivity | exact IH].
Qed.

(** A property of the sorted value is the sorted property of the value. *)
Lemma obj_get_sorted o name :
  NoDup (map fst o) ->
  obj_get (sort_by_key (map sort_member o)) name
  = sortKeysRecursive <$> obj_get o name.
Proof.
  intros Hnd. rewrite <- obj_get_sort_member.
  apply obj_get_perm; [|apply sort_by_key_perm].
  rewrite sort_by_key_keys, sort_member_keys. exact Hnd.
Qed.

Lemma obj_set_keys o n x :
  map fst (obj_set o n x) =
  if bool_decide (n ∈ map fst o) then map fst o else map fst o ++ [n].
Proof.
  induction o as [|[k v] o IH]; simpl; [reflexivity|].
  destruct (String.eqb_spec k n) as [->|Hne]; simpl.
  - rewrite bool_decide_eq_true_2 by left. reflexivity.
  - rewrite IH. destruct (decide (n ∈ map fst o)) as [Hin|Hin].
    + rewrite !bool_decide_eq_true_2; [reflexivity| right |]; assumption.
    + rewrite !bool_decide_eq_false_2; [reflexivity| |assumption].
      intros [?|?]%elem_of_cons; congruence.
Qed.

Lemma obj_set_NoDup o n x :
  NoDup (map fst o) -> NoDup (map fst (obj_set o n x)).
Proof.
  intros Hnd. rewrite obj_set_keys. case_bool_decide as Hin; [exact Hnd|].
  apply NoDup_app. split; [exact Hnd|]. split; [|apply NoDup_singleton].
  intros k Hk ->%list_elem_of_singleton. contradiction.
Qed.

Lemma obj_set_wf o n x : wf (JObj o) -> wf x -> wf (JObj (obj_set o n x)).
Proof.
  rewrite !wf_obj. intros [Hnd Ho] Hx. split; [apply obj_set_NoDup, Hnd|].
  clear Hnd. induction o as [|[k v] o IH]; simpl.
  - constructor; [exact Hx | constructor].
  - inversion Ho as [|? ? Hv Ho']; subst.
    destruct (String.eqb k n); constructor; auto.
Qed.

(** ** The record registry *)

Lemma occupied_created ws k o : occupied (<[k := encode o]> ws) k = true.
Proof. apply occupied_insert, encode_nonempty. Qed.

Lemma stored_record_insert ws k o :
  wf (JObj o) ->
  stored_record (<[k := encode o]> ws) k = Some (sortKeysRecursive (JObj o)).
Proof.
  intros H. unfold stored_record. rewrite lookup_insert_eq.
  apply parse_encode, H.
Qed.

Lemma Create_absent ws k f :
  occupied ws k = false ->
  Create k f ws = (inr tt, <[k := encode (record k f)]> ws).
Proof. intros H. rewrite CreateAsset_run, H. reflexivity. Qed.

Lemma Read_created ws k o :
  ReadAsset k (<[k := encode o]> ws)
  = (inr (encode o), <[k := encode o]> ws).
Proof.
  apply ReadAsset_stored; [apply lookup_insert_eq | apply encode_nonempty].
Qed.

Lemma obj_get_sorted_record k f name :
  obj_get (sorted_record k f) name = obj_get (record k f) name.
Proof.
  rewrite sorted_record_eq, obj_get_sorted by apply NoDup_keys_record.
  assert (Hfix : Forall (fun m => sortKeysRecursive (snd m) = snd m) (record k f)).
  { unfold record, asset_literal.
    repeat (constructor; [first [reflexivity | apply sort_numbers]|]).
    constructor. }
  induction Hfix as [|[n v] o Hv Ho IH]; simpl; [reflexivity|].
  destruct (String.eqb n name); [|exact IH].
  simpl in *. rewrite Hv. reflexivity.
Qed.

(** C1.  Two field-value mappings that hold the same key/value pairs, listed
    in different insertion orders, are encoded for a write into the same
    bytes. *)
Theorem encode_insertion_order (o1 o2 : object) :
  NoDup (map fst o1) -> o1 ≡ₚ o2 ->
  stringify (sortKeysRecursive (JObj o1))
  = stringify (sortKeysRecursive (JObj o2)).
Proof.
  intros Hnd Hp. rewrite !sortKeysRecursive_obj. do 2 f_equal.
  apply sort_by_key_unique.
  - rewrite sort_member_keys. exact Hnd.
  - apply Permutation_map, Hp.
Qed.

Lemma encode_insertion_order_witness :
  stringify (sortKeysRecursive
    (JObj [("Owner", JStr "X"); ("SNR", JNum half); ("ID", JStr "dev-1")]))
  = stringify (sortKeysRecursive
    (JObj [("ID", JStr "dev-1"); ("Owner", JStr "X"); ("SNR", JNum half)])).
Proof.
  apply encode_insertion_order.
  - apply (bool_decide_unpack _). vm_compute. exact I.
  - apply Permutation_sym, Permutation_cons_append.
Defined.

(** C4.  After a successful [CreateAsset] at a key, a second one at the same
    key throws the already-exists error and leaves the world state as the
    first call left it. *)
Theorem no_double_create (ws : WorldState) (k : string) (f1 f2 : Asset) :
  occupied ws k = false ->
  exists ws1,
    Create k f1 ws = (inr tt, ws1) /\
    Create k f2 ws1 = (inl (AlreadyExists k), ws1).
Proof.
  intros H. eexists. split; [apply Create_absent, H|].
  rewrite CreateAsset_run, occupied_created. reflexivity.
Qed.

Lemma no_double_create_witness :
  exists ws1,
    Create "dev-1" sample ∅ = (inr tt, ws1) /\
    Create "dev-1" (with_owner sample "Y") ws1
    = (inl (AlreadyExists "dev-1"), ws1).
Proof. apply no_double_create. reflexivity. Defined.

(** C10.  [ReadAsset] at an occupied key returns the bytes stored there as
    they are; in particular it returns the bytes of the latest write. *)
Theorem read_returns_stored_bytes (ws : WorldState) (k bytes : string) :
  bytes <> "" ->
  (ws !! k = Some bytes -> ReadAsset k ws = (inr bytes, ws)) /\
  ReadAsset k (snd (putState k bytes ws))
  = (inr bytes, snd (putState k bytes ws)).
Proof.
  intros Hne. split.
  - intros H. apply ReadAsset_stored; assumption.
  - apply ReadAsset_stored; [apply lookup_insert_eq | exact Hne].
Qed.

Lemma read_returns_stored_bytes_witness :
  ReadAsset "k" (<["k" := "not json"]> ∅)
  = (inr "not json", <["k" := "not json"]> ∅) /\
  ReadAsset "k" (snd (putState "k" "not json" (<["k" := "not json"]> ∅)))
  = (inr "not json", snd (putState "k" "not json" (<["k" := "not json"]> ∅))).
Proof.
  destruct (read_returns_stored_bytes (<["k" := "not json"]> ∅) "k" "not json")
    as [Hread Hwrite]; [discriminate|].
  split; [apply Hread; reflexivity | exact Hwrite].
Defined.

(** C3, as the spec states it, at a concrete input: on the empty ledger,
    [CreateAsset] and then [ReadAsset] at the same key return a text that
    decodes to a mapping with no [docType] field, which the given fields
    plus the [docType] tag have. *)
Lemma create_read_docType_counterexample :
  exists ws1 text o,
    Create "dev-1" sample ∅ = (inr tt, ws1) /\
    ReadAsset "dev-1" ws1 = (inr text, ws1) /\
    JSON_parse text = Some (JObj o) /\
    obj_get o "docType" = None /\
    obj_get (obj_set (record "dev-1" sample) "docType" (JStr "asset"))
      "docType" = Some (JStr "asset").
Proof.
  exists (<["dev-1" := encode (record "dev-1" sample)]> ∅),
    (encode (record "dev-1" sample)), (sorted_record "dev-1" sample).
  split; [apply Create_absent; reflexivity|].
  split; [apply Read_created|].
  split; [apply parse_encode_record|].
  split; reflexivity.
Qed.

(** C3, amended.  At a key that is not occupied, [CreateAsset] and then
    [ReadAsset] succeed, and the text returned decodes to an object that is,
    as a mapping, the record of the given fields: [ID] and the twelve
    fields, and no [docType]. *)
Theorem create_read_round_trip (ws : WorldState) (k : string) (f : Asset) :
  occupied ws k = false ->
  exists ws1 text o,
    Create k f ws = (inr tt, ws1) /\
    ReadAsset k ws1 = (inr text, ws1) /\
    JSON_parse text = Some (JObj o) /\
    (forall name, obj_get o name = obj_get (record k f) name) /\
    obj_get o "docType" = None.
Proof.
  intros H. exists (<[k := encode (record k f)]> ws), (encode (record k f)),
    (sorted_record k f).
  split; [apply Create_absent, H|]. split; [apply Read_created|].
  split; [apply parse_encode_record|].
  split; [apply obj_get_sorted_record | reflexivity].
Qed.

Lemma create_read_round_trip_witness :
  exists ws1 text o,
    Create "dev-1" sample ∅ = (inr tt, ws1) /\
    ReadAsset "dev-1" ws1 = (inr text, ws1) /\
    JSON_parse text = Some (JObj o) /\
    (forall name, obj_get o name = obj_get (record "dev-1" sample) name) /\
    obj_get o "docType" = None.
Proof. apply create_read_round_trip. reflexivity. Defined.

Lemma sorted_record_set_owner k f owner :
  obj_set (sorted_record k f) "Owner" (JStr owner)
  = sorted_record k (with_owner f owner).
Proof. reflexivity. Qed.

(** C5.  For a record created at a key with owner [a], [TransferAsset] to
    [b] returns [a]; the text read afterwards decodes to a record whose
    [Owner] is [b] and whose other fields are those read before the
    transfer. *)
Theorem transfer_swaps_owner (ws : WorldState) (k : string) (f : Asset)
    (a b : string) :
  occupied ws k = false ->
  exists ws1 ws2 before text after,
    Create k (with_owner f a) ws = (inr tt, ws1) /\
    stored_record ws1 k = Some (JObj before) /\
    TransferAsset k b ws1 = (inr (Some (JStr a)), ws2) /\
    ReadAsset k ws2 = (inr text, ws2) /\
    JSON_parse text = Some (JObj after) /\
    obj_get after "Owner" = Some (JStr b) /\
    (forall name, name <> "Owner" -> obj_get after name = obj_get before name).
Proof.
  intros H.
  set (fa := with_owner f a). set (fb := with_owner f b).
  set (ws1 := <[k := encode (record k fa)]> ws).
  assert (Hbytes : ws1 !! k = Some (stringify (JObj (sorted_record k fa)))).
  { subst ws1. rewrite lookup_insert_eq. unfold encode.
    rewrite sort_record. reflexivity. }
  assert (Hwf : wf (JObj (sorted_record k fa))).
  { rewrite <- sort_record. apply sortKeysRecursive_wf, wf_record. }
  exists ws1, (<[k := encode (record k fb)]> ws1), (sorted_record k fa),
    (encode (record k fb)), (sorted_record k fb).
  split; [apply Create_absent, H|].
  split.
  { unfold stored_record. rewrite Hbytes. apply parse_stringify, Hwf. }
  split.
  { rewrite (TransferAsset_run k b _ ws1 Hbytes Hwf).
    rewrite sorted_record_set_owner.
    change (with_owner fa b) with fb.
    unfold encode at 1. rewrite <- (sort_record k fb), sortKeysRecursive_idem.
    reflexivity. }
  split; [apply Read_created|].
  split; [apply parse_encode_record|].
  split; [reflexivity|].
  intros name Hname.
  change (sorted_record k fb)
    with (obj_set (sorted_record k fa) "Owner" (JStr b)).
  rewrite obj_get_set.
  destruct (String.eqb_spec "Owner" name) as [<-|_]; [congruence | reflexivity].
Qed.

Lemma transfer_swaps_owner_witness :
  exists ws1 ws2 before text after,
    Create "dev-1" (with_owner sample "A") ∅ = (inr tt, ws1) /\
    stored_record ws1 "dev-1" = Some (JObj before) /\
    TransferAsset "dev-1" "B" ws1 = (inr (Some (JStr "A")), ws2) /\
    ReadAsset "dev-1" ws2 = (inr text, ws2) /\
    JSON_parse text = Some (JObj after) /\
    obj_get after "Owner" = Some (JStr "B") /\
    (forall name, name <> "Owner" -> obj_get after name = obj_get before name).
Proof. apply transfer_swaps_owner. reflexivity. Defined.

(** C6.  After [CreateAsset] with the fields [f1] and [UpdateAsset] with the
    fields [f2] at the same key, the text read decodes to an object that is,
    as a mapping, the record built from [f2] alone; [UpdateAsset] at a key
    that is not occupied throws the not-found error. *)
Theorem update_replaces_fully (ws : WorldState) (k : string) (f1 f2 : Asset) :
  occupied ws k = false ->
  (exists ws1 ws2 text o,
     Create k f1 ws = (inr tt, ws1) /\
     Update k f2 ws1 = (inr tt, ws2) /\
     ReadAsset k ws2 = (inr text, ws2) /\
     JSON_parse text = Some (JObj o) /\
     JObj o = sortKeysRecursive (JObj (record k f2)) /\
     forall name, obj_get o name = obj_get (record k f2) name) /\
  Update k f2 ws = (inl (NotFound k), ws).
Proof.
  intros H. split; [|rewrite UpdateAsset_run, H; reflexivity].
  exists (<[k := encode (record k f1)]> ws),
    (<[k := encode (record k f2)]> (<[k := encode (record k f1)]> ws)),
    (encode (record k f2)), (sorted_record k f2).
  split; [apply Create_absent, H|].
  split; [rewrite UpdateAsset_run, occupied_created; reflexivity|].
  split; [apply Read_created|].
  split; [apply parse_encode_record|].
  split; [symmetry; apply sort_record | apply obj_get_sorted_record].
Qed.

Lemma update_replaces_fully_witness :
  (exists ws1 ws2 text o,
     Create "dev-1" sample ∅ = (inr tt, ws1) /\
     Update "dev-1" (with_owner sample "Y") ws1 = (inr tt, ws2) /\
     ReadAsset "dev-1" ws2 = (inr text, ws2) /\
     JSON_parse text = Some (JObj o) /\
     JObj o
     = sortKeysRecursive (JObj (record "dev-1" (with_owner sample "Y"))) /\
     forall name,
       obj_get o name = obj_get (record "dev-1" (with_owner sample "Y")) name) /\
  Update "dev-1" (with_owner sample "Y") ∅ = (inl (NotFound "dev-1"), ∅).
Proof. apply update_replaces_fully. reflexivity. Defined.

(** ** Deleting *)

(** The sensor-asset contract: [DeleteAsset] removes an occupied key and
    throws the not-found error at any other; after a create and a delete,
    reading and deleting again both throw it. *)
Lemma delete_sensor (ws : WorldState) (k : string) (f : Asset) :
  (occupied ws k = true -> DeleteAsset k ws = (inr tt, delete k ws)) /\
  (occupied ws k = false ->
   DeleteAsset k ws = (inl (NotFound k), ws) /\
   exists ws1 ws2,
     Create k f ws = (inr tt, ws1) /\
     DeleteAsset k ws1 = (inr tt, ws2) /\
     ws2 !! k = None /\
     ReadAsset k ws2 = (inl (NotFound k), ws2) /\
     DeleteAsset k ws2 = (inl (NotFound k), ws2)).
Proof.
  split; intros H; [rewrite DeleteAsset_run, H; reflexivity|].
  split; [rewrite DeleteAsset_run, H; reflexivity|].
  exists (<[k := encode (record k f)]> ws),
    (delete k (<[k := encode (record k f)]> ws)).
  split; [apply Create_absent, H|].
  split; [rewrite DeleteAsset_run, occupied_created; reflexivity|].
  split; [apply lookup_delete_eq|].
  split; [apply ReadAsset_absent, occupied_delete|].
  rewrite DeleteAsset_run, occupied_delete. reflexivity.
Qed.

Lemma methane_delete_throws (ws : WorldState) (timestamp : string) :
  MethaneTransfer.DeleteAsset timestamp ws = (inl (ReferenceError "id"), ws).
Proof. reflexivity. Qed.

(** C7, at the input where the code departs from it.  In the methane-level
    contract, a record is created at a timestamp; [DeleteAsset] at that
    timestamp throws a reference error for the unbound [id] and the record
    stays. *)
Theorem methane_delete_keeps_record :
  exists ws1,
    MethaneTransfer.CreateAsset "00:00:00" (Number false 0 Nil) ∅
    = (inr tt, ws1) /\
    occupied ws1 "00:00:00" = true /\
    MethaneTransfer.DeleteAsset "00:00:00" ws1
    = (inl (ReferenceError "id"), ws1) /\
    occupied (snd (MethaneTransfer.DeleteAsset "00:00:00" ws1)) "00:00:00"
    = true.
Proof.
  exists (<["00:00:00" :=
            encode (MethaneTransfer.asset_literal "00:00:00"
                      (Number false 0 Nil))]> ∅).
  split; [reflexivity|].
  split; [apply occupied_created|].
  split; [reflexivity | apply occupied_created].
Qed.

(** ** Listing *)

Lemma classify_bad c : starts_value c = false -> classify c = TBad.
Proof.
  destruct c as [[] [] [] [] [] [] [] []]; vm_compute;
    intros H; first [reflexivity | discriminate H].
Qed.

Lemma malformed_parse bytes : malformed bytes = true -> JSON_parse bytes = None.
Proof.
  unfold malformed, JSON_parse. cbn [parse_value].
  destruct (skip_ws bytes) as [|c r]; [reflexivity|].
  intros H. apply negb_true_iff in H. rewrite (classify_bad c H). reflexivity.
Qed.





















(** ** The [docType] field *)

Lemma obj_get_transfer o b name :
  wf (JObj o) -> sortKeysRecursive (JObj o) = JObj o -> name <> "Owner" ->
  match sortKeysRecursive (JObj (obj_set o "Owner" (JStr b))) with
  | JObj o' => obj_get o' name
  | _ => None
  end = obj_get o name.
Proof.
  intros Hwf Hfix Hname. apply wf_obj in Hwf as [Hnd _].
  rewrite sortKeysRecursive_obj.
  rewrite obj_get_sorted by apply obj_set_NoDup, Hnd.
  rewrite obj_get_set.
  destruct (String.eqb_spec "Owner" name) as [E|_]; [congruence|].
  rewrite sortKeysRecursive_obj in Hfix. injection Hfix as Hfix.
  rewrite <- Hfix at 2. symmetry. apply obj_get_sorted, Hnd.
Qed.

Lemma wf_asset_object a : wf (JObj (asset_object a)).
Proof.
  unfold asset_object. cbv zeta.
  destruct (docType a); [apply obj_set_wf; [|exact I]|];
    apply (wf_record (ID a) a).
Qed.

Lemma InitLedger_loop_run l ws :
  InitLedger_loop l ws
  = (inr tt, fold_left (fun ws a => <[ID a := seeded a]> ws) l ws).
Proof.
  revert ws. induction l as [|a l IH]; intros ws; [reflexivity|].
  cbn [InitLedger_loop fold_left]. cbv zeta. unfold bind, putState.
  rewrite IH. reflexivity.
Qed.

Lemma InitLedger_run ws :
  InitLedger ws
  = (inr tt, fold_left (fun ws a => <[ID a := seeded a]> ws) assets ws).
Proof. apply InitLedger_loop_run. Qed.

(** C2, as the spec states it, at a concrete input: the bytes that
    [CreateAsset] stores on the empty ledger are the text of a record with
    no [docType] field. *)
Lemma create_docType_counterexample :
  exists ws1 o,
    Create "dev-1" sample ∅ = (inr tt, ws1) /\
    ws1 !! "dev-1"
    = Some (text "{`Accelerometer`:[],`Gas_resistance`:0,`Gyroscope`:[],`Humidity`:0,`ID`:`dev-1`,`Latitude`:0,`Light`:0,`Longitude`:0,`Owner`:`X`,`Pressure`:0,`SNR`:0.5,`Temperature`:0,`VBAT`:3.3}") /\
    stored_record ws1 "dev-1" = Some (JObj o) /\
    obj_get o "docType" = None /\
    obj_get o "docType" <> Some (JStr "asset").
Proof.
  exists (<["dev-1" := encode (record "dev-1" sample)]> ∅),
    (sorted_record "dev-1" sample).
  split; [apply Create_absent; reflexivity|].
  split; [rewrite lookup_insert_eq; vm_compute; reflexivity|].
  split.
  { rewrite stored_record_insert, sort_record by apply wf_record. reflexivity. }
  split; [reflexivity | discriminate].
Qed.

(** C2, amended.  Every record that [InitLedger] stores has the field
    [docType] set to the tag; the record that [CreateAsset] and
    [UpdateAsset] store is exactly the thirteen given fields, in ascending
    key order, with no [docType] field; [TransferAsset], at a key that holds
    a canonical encoding, stores a record whose [docType] is as it was in
    the record read. *)
Theorem docType_on_writes :
  (forall ws, exists ws1,
     InitLedger ws = (inr tt, ws1) /\
     forall a, a ∈ assets ->
       exists o, stored_record ws1 (ID a) = Some (JObj o) /\
                 obj_get o "docType" = Some (JStr "asset")) /\
  (forall ws k f ws1,
     Create k f ws = (inr tt, ws1) ->
     exists o, stored_record ws1 k = Some (JObj o) /\
               o = sorted_record k f /\
               map fst o
               = ["Accelerometer"; "Gas_resistance"; "Gyroscope"; "Humidity";
                  "ID"; "Latitude"; "Light"; "Longitude"; "Owner"; "Pressure";
                  "SNR"; "Temperature"; "VBAT"] /\
               obj_get o "docType" = None) /\
  (forall ws k f ws1,
     Update k f ws = (inr tt, ws1) ->
     exists o, stored_record ws1 k = Some (JObj o) /\
               o = sorted_record k f /\
               map fst o
               = ["Accelerometer"; "Gas_resistance"; "Gyroscope"; "Humidity";
                  "ID"; "Latitude"; "Light"; "Longitude"; "Owner"; "Pressure";
                  "SNR"; "Temperature"; "VBAT"] /\
               obj_get o "docType" = None) /\
  (forall ws k b r,
     wf (JObj r) -> ws !! k = Some (encode r) ->
     exists old ws1 o o',
       stored_record ws k = Some (JObj o) /\
       TransferAsset k b ws = (inr old, ws1) /\
       stored_record ws1 k = Some (JObj o') /\
       obj_get o' "docType" = obj_get o "docType").
Proof.
  split; [|split; [|split]].
  - intros ws. eexists. split; [apply InitLedger_run|].
    intros a ->%list_elem_of_singleton. cbn [assets fold_left].
    eexists. split.
    + unfold seeded. rewrite stored_record_insert by apply wf_asset_object.
      rewrite sortKeysRecursive_obj. reflexivity.
    + vm_compute. reflexivity.
  - intros ws k f ws1. rewrite CreateAsset_run.
    destruct (occupied ws k); [discriminate|]. intros [= <-].
    exists (sorted_record k f). split; [|repeat split; reflexivity].
    rewrite stored_record_insert, sort_record by apply wf_record. reflexivity.
  - intros ws k f ws1. rewrite UpdateAsset_run.
    destruct (occupied ws k); [|discriminate]. intros [= <-].
    exists (sorted_record k f). split; [|repeat split; reflexivity].
    rewrite stored_record_insert, sort_record by apply wf_record. reflexivity.
  - intros ws k b r Hwf Hk.
    pose proof (sortKeysRecursive_wf _ Hwf) as Hwf'.
    pose proof (sortKeysRecursive_idem (JObj r)) as Hfix.
    rewrite sortKeysRecursive_obj in Hwf', Hfix.
    set (o := sort_by_key (map sort_member r)) in *.
    assert (Hk' : ws !! k = Some (stringify (JObj o))) by exact Hk.
    exists (obj_get o "Owner"),
      (<[k := encode (obj_set o "Owner" (JStr b))]> ws), o,
      (sort_by_key (map sort_member (obj_set o "Owner" (JStr b)))).
    split.
    { unfold stored_record. rewrite Hk'. apply parse_stringify, Hwf'. }
    split; [apply TransferAsset_run; assumption|].
    split.
    { rewrite stored_record_insert by (apply obj_set_wf; [exact Hwf' | exact I]).
      reflexivity. }
    apply (obj_get_transfer o b "docType" Hwf' Hfix). discriminate.
Qed.

Lemma docType_on_writes_witness :
  (exists o,
     stored_record (<["dev-1" := encode (record "dev-1" sample)]> ∅) "dev-1"
     = Some (JObj o) /\
     o = sorted_record "dev-1" sample /\
     map fst o
     = ["Accelerometer"; "Gas_resistance"; "Gyroscope"; "Humidity";
        "ID"; "Latitude"; "Light"; "Longitude"; "Owner"; "Pressure";
        "SNR"; "Temperature"; "VBAT"] /\
     obj_get o "docType" = None) /\
  (exists old ws1 o o',
     stored_record (<["dev-1" := encode (record "dev-1" sample)]> ∅) "dev-1"
     = Some (JObj o) /\
     TransferAsset "dev-1" "Y"
       (<["dev-1" := encode (record "dev-1" sample)]> ∅) = (inr old, ws1) /\
     stored_record ws1 "dev-1" = Some (JObj o') /\
     obj_get o' "docType" = obj_get o "docType").
Proof.
  destruct docType_on_writes as (_ & Hcreate & _ & Htransfer). split.
  - apply (Hcreate ∅ "dev-1" sample). apply Create_absent. reflexivity.
  - apply (Htransfer _ "dev-1" "Y" (record "dev-1" sample)).
    + apply wf_record.
    + apply lookup_insert_eq.
Defined.

(** * Further properties of the contracts *)

(** ** What [JSON.parse] returns is well formed *)

Lemma obj_set_Forall (P : json -> Prop) o n x :
  Forall (fun m => P (snd m)) o -> P x ->
  Forall (fun m => P (snd m)) (obj_set o n x).
Proof.
  intros Ho Hx. induction o as [|[k v] o IH]; simpl.
  - constructor; [exact Hx | constructor].
  - inversion Ho as [|? ? Hv Ho']; subst.
    destruct (String.eqb k n); constructor; auto.
Qed.

Lemma build_object_wf ms :
  Forall (fun m => wf (snd m)) ms -> wf (JObj (build_object ms)).
Proof.
  intros Hms. unfold build_object.
  enough (H : forall acc, wf (JObj acc) ->
            wf (JObj (fold_left (fun o m => obj_set o (fst m) (snd m)) ms acc))).
  { apply H. apply wf_obj. split; constructor. }
  induction Hms as [|[k x] ms Hx Hms IH]; intros acc Hacc; simpl; [exact Hacc|].
  apply IH, obj_set_wf; assumption.
Qed.

Lemma parse_value_wf fuel :
  (forall s v r, parse_value fuel s = Some (v, r) -> wf v) /\
  (forall s l r, parse_elements fuel s = Some (l, r) -> Forall wf l) /\
  (forall s ms r, parse_members fuel s = Some (ms, r) ->
                  Forall (fun m => wf (snd m)) ms).
Proof.
  induction fuel as [|fuel (IHv & IHe & IHm)];
    [repeat split; intros; discriminate|].
  split; [|split].
  - intros s v r. cbn [parse_value].
    destruct (skip_ws s) as [|c s1]; [discriminate|].
    destruct (classify c).
    + destruct (strip_prefix _ s1); [|discriminate]. intros [= <- _]. exact I.
    + destruct (strip_prefix _ s1); [|discriminate]. intros [= <- _]. exact I.
    + destruct (strip_prefix _ s1); [|discriminate]. intros [= <- _]. exact I.
    + destruct (parse_string_body s1) as [[str r']|]; [|discriminate].
      intros [= <- _]. exact I.
    + destruct (starts_with "]" (skip_ws s1)); [intros [= <- _]; exact I|].
      destruct (parse_elements fuel s1) as [[l r']|] eqn:E; [|discriminate].
      intros [= <- _]. apply wf_arr, (IHe _ _ _ E).
    + destruct (starts_with "}" (skip_ws s1));
        [intros [= <- _]; apply wf_obj; split; constructor|].
      destruct (parse_members fuel s1) as [[ms r']|] eqn:E; [|discriminate].
      intros [= <- _]. apply build_object_wf, (IHm _ _ _ E).
    + destruct (parse_number (String c s1)) as [[n r']|]; [|discriminate].
      intros [= <- _]. exact I.
    + discriminate.
  - intros s l r. cbn [parse_elements].
    destruct (parse_value fuel s) as [[v r0]|] eqn:Ev; [|discriminate].
    destruct (skip_ws r0) as [|c r1]; [discriminate|].
    destruct (Ascii.eqb c ",").
    + destruct (parse_elements fuel r1) as [[l' r2]|] eqn:E; [|discriminate].
      intros [= <- _]. constructor; [apply (IHv _ _ _ Ev) | apply (IHe _ _ _ E)].
    + destruct (Ascii.eqb c "]"); [|discriminate].
      intros [= <- _]. constructor; [apply (IHv _ _ _ Ev) | constructor].
  - intros s ms r. cbn [parse_members].
    destruct (starts_with "034" (skip_ws s)) as [s1|]; [|discriminate].
    destruct (parse_string_body s1) as [[name s2]|]; [|discriminate].
    destruct (starts_with ":" (skip_ws s2)) as [s3|]; [|discriminate].
    destruct (parse_value fuel s3) as [[v r0]|] eqn:Ev; [|discriminate].
    destruct (skip_ws r0) as [|c r1]; [discriminate|].
    destruct (Ascii.eqb c ",").
    + destruct (parse_members fuel r1) as [[ms' r2]|] eqn:E; [|discriminate].
      intros [= <- _]. constructor; [apply (IHv _ _ _ Ev) | apply (IHm _ _ _ E)].
    + destruct (Ascii.eqb c "}"); [|discriminate].
      intros [= <- _]. constructor; [apply (IHv _ _ _ Ev) | constructor].
Qed.

Lemma JSON_parse_wf s v : JSON_parse s = Some v -> wf v.
Proof.
  unfold JSON_parse.
  destruct (parse_value (S (String.length s)) s) as [[v' r]|] eqn:E;
    [|discriminate].
  destruct (skip_ws r); [|discriminate]. intros [= <-].
  apply (proj1 (parse_value_wf _) _ _ _ E).
Qed.

Lemma entry_wf result : wf (entry result).
Proof.
  unfold entry. destruct (JSON_parse (snd result)) eqn:E; [|exact I].
  apply (JSON_parse_wf _ _ E).
Qed.

(** ** Failure and frame *)

Lemma TransferAsset_cases k b ws :
  (exists e, TransferAsset k b ws = (inl e, ws)) \/
  (exists old bytes, TransferAsset k b ws = (inr old, <[k := bytes]> ws)).
Proof.
  unfold TransferAsset, bind. rewrite ReadAsset_run.
  destruct (ws !! k) as [bytes|]; [|left; eauto].
  destruct (Nat.eqb (String.length bytes) 0); [left; eauto|].
  unfold parse. destruct (JSON_parse bytes) as [[ | | | | | ]|];
    cbn; eauto.
Qed.

Lemma fold_insert_other (l : list Asset) (g : Asset -> string)
    (ws : WorldState) (key : string) :
  key ∉ map ID l ->
  fold_left (fun (ws : WorldState) a => <[ID a := g a]> ws) l ws !! key
  = ws !! key.
Proof.
  revert ws. induction l as [|a l IH]; intros ws Hk; [reflexivity|].
  cbn [fold_left]. rewrite IH.
  - apply lookup_insert_ne. intros E. apply Hk. rewrite <- E. left.
  - intros H. apply Hk. right. exact H.
Qed.

(** X1.  A transaction that throws leaves the world state as it was. *)
Theorem failed_transaction_writes_nothing (i : invocation) (ws : WorldState)
    (e : error) :
  outcome i ws = Some e -> commit i ws = ws.
Proof.
  destruct i as [ | k f | k | k f | k | k | k b | ];
    cbn [outcome commit]; unfold thrown.
  - rewrite InitLedger_run. discriminate.
  - rewrite CreateAsset_run. destruct (occupied ws k); [reflexivity|discriminate].
  - rewrite ReadAsset_run. destruct (ws !! k) as [bytes|]; [|reflexivity].
    destruct (Nat.eqb (String.length bytes) 0); reflexivity.
  - rewrite UpdateAsset_run. destruct (occupied ws k); [discriminate|reflexivity].
  - rewrite DeleteAsset_run. destruct (occupied ws k); [discriminate|reflexivity].
  - reflexivity.
  - destruct (TransferAsset_cases k b ws) as [(e' & ->)|(old & bytes & ->)];
      [reflexivity | discriminate].
  - reflexivity.
Qed.

Lemma failed_transaction_writes_nothing_witness :
  commit (Call_TransferAsset "k" "Y") (<["k" := "not json"]> ∅)
  = <["k" := "not json"]> ∅.
Proof.
  apply (failed_transaction_writes_nothing _ _ SyntaxError).
  vm_compute. reflexivity.
Defined.

(** X2.  A transaction changes no key but its targets; a read-only transaction
    changes nothing. *)
Theorem transaction_frame (i : invocation) (ws : WorldState) (key : string) :
  key ∉ targets i -> commit i ws !! key = ws !! key.
Proof.
  destruct i as [ | k f | k | k f | k | k | k b | ];
    cbn [targets commit]; intros Hk.
  - rewrite InitLedger_run. cbn [snd]. apply fold_insert_other, Hk.
  - rewrite CreateAsset_run. destruct (occupied ws k); [reflexivity|].
    apply lookup_insert_ne. intros ->. apply Hk. left.
  - rewrite ReadAsset_run. destruct (ws !! k) as [bytes|]; [|reflexivity].
    destruct (Nat.eqb (String.length bytes) 0); reflexivity.
  - rewrite UpdateAsset_run. destruct (occupied ws k); [|reflexivity].
    apply lookup_insert_ne. intros ->. apply Hk. left.
  - rewrite DeleteAsset_run. destruct (occupied ws k); [|reflexivity].
    apply lookup_delete_ne. intros ->. apply Hk. left.
  - reflexivity.
  - destruct (TransferAsset_cases k b ws) as [(e' & ->)|(old & bytes & ->)];
      [reflexivity|].
    apply lookup_insert_ne. intros ->. apply Hk. left.
  - reflexivity.
Qed.

Lemma transaction_frame_witness :
  commit (Call_DeleteAsset "a") (<["a" := "1"]> (<["b" := "2"]> ∅)) !! "b"
  = (<["a" := "1"]> (<["b" := "2"]> ∅) : WorldState) !! "b".
Proof. apply transaction_frame. vm_compute. intros H. inversion H as [|? ? ? H']; inversion H'. Defined.

(** ** Existence *)

(** X3.  [AssetExists] neither throws nor writes; it answers true exactly when
    [ReadAsset] at the key returns a text. *)
Theorem exists_agrees_with_read (ws : WorldState) (k : string) :
  exists b,
    AssetExists k ws = (inr b, ws) /\
    (b = true <-> exists text, ReadAsset k ws = (inr text, ws)).
Proof.
  exists (occupied ws k). split; [reflexivity|].
  rewrite ReadAsset_run. unfold occupied.
  destruct (ws !! k) as [bytes|].
  - destruct (Nat.eqb (String.length bytes) 0); simpl; split;
      try discriminate; eauto.
    intros (text & H). discriminate H.
  - split; [discriminate|]. intros (text & H). discriminate H.
Qed.

(** X4.  After a successful [CreateAsset] or [UpdateAsset] at a key,
    [AssetExists] answers true there; after a successful [DeleteAsset] it
    answers false. *)
Theorem exists_after_write (ws ws1 : WorldState) (k : string) (f : Asset) :
  (Create k f ws = (inr tt, ws1) \/ Update k f ws = (inr tt, ws1) ->
   AssetExists k ws1 = (inr true, ws1)) /\
  (DeleteAsset k ws = (inr tt, ws1) -> AssetExists k ws1 = (inr false, ws1)).
Proof.
  rewrite CreateAsset_run, UpdateAsset_run, DeleteAsset_run.
  split.
  - intros [H|H]; destruct (occupied ws k); try discriminate;
      injection H as <-; rewrite AssetExists_run, occupied_created; reflexivity.
  - destruct (occupied ws k); [|discriminate]. intros [= <-].
    rewrite AssetExists_run, occupied_delete. reflexivity.
Qed.

Lemma exists_after_write_witness :
  AssetExists "dev-1" (<["dev-1" := encode (record "dev-1" sample)]> ∅)
  = (inr true, <["dev-1" := encode (record "dev-1" sample)]> ∅) /\
  AssetExists "dev-1"
    (delete "dev-1" (<["dev-1" := encode (record "dev-1" sample)]> ∅))
  = (inr false,
     delete "dev-1" (<["dev-1" := encode (record "dev-1" sample)]> ∅)).
Proof.
  split.
  - apply (exists_after_write ∅ _ "dev-1" sample). left.
    apply Create_absent. reflexivity.
  - apply (exists_after_write
             (<["dev-1" := encode (record "dev-1" sample)]> ∅) _ "dev-1" sample).
    rewrite DeleteAsset_run, occupied_created. reflexivity.
Defined.

(** X5.  A key that holds empty bytes counts as absent: [AssetExists] answers
    false, [ReadAsset], [UpdateAsset], [DeleteAsset] and [TransferAsset]
    throw the does-not-exist error and leave the empty bytes, and
    [CreateAsset] succeeds and overwrites them. *)
Theorem empty_bytes_count_as_absent (ws : WorldState) (k : string) (f : Asset)
    (b : string) :
  ws !! k = Some "" ->
  AssetExists k ws = (inr false, ws) /\
  ReadAsset k ws = (inl (NotFound k), ws) /\
  Update k f ws = (inl (NotFound k), ws) /\
  DeleteAsset k ws = (inl (NotFound k), ws) /\
  TransferAsset k b ws = (inl (NotFound k), ws) /\
  Create k f ws = (inr tt, <[k := encode (record k f)]> ws).
Proof.
  intros H.
  assert (Ho : occupied ws k = false) by (unfold occupied; rewrite H; reflexivity).
  rewrite AssetExists_run, UpdateAsset_run, DeleteAsset_run, CreateAsset_run, Ho.
  repeat split; try reflexivity.
  - apply ReadAsset_absent, Ho.
  - unfold TransferAsset, bind. rewrite (ReadAsset_absent _ _ Ho). reflexivity.
Qed.

Lemma empty_bytes_count_as_absent_witness :
  AssetExists "k" (<["k" := ""]> ∅) = (inr false, <["k" := ""]> ∅) /\
  ReadAsset "k" (<["k" := ""]> ∅) = (inl (NotFound "k"), <["k" := ""]> ∅) /\
  Update "k" sample (<["k" := ""]> ∅)
  = (inl (NotFound "k"), <["k" := ""]> ∅) /\
  DeleteAsset "k" (<["k" := ""]> ∅) = (inl (NotFound "k"), <["k" := ""]> ∅) /\
  TransferAsset "k" "Y" (<["k" := ""]> ∅)
  = (inl (NotFound "k"), <["k" := ""]> ∅) /\
  Create "k" sample (<["k" := ""]> ∅)
  = (inr tt, <["k" := encode (record "k" sample)]> (<["k" := ""]> ∅)).
Proof. apply empty_bytes_count_as_absent. reflexivity. Defined.

(** ** Transfer *)

(** X6.  [TransferAsset] throws the does-not-exist error at a key that is not
    occupied, a syntax error when the stored bytes start, after white space,
    with a character that starts no JSON value, and a type error when they
    are the text of [null], a boolean, a number or a string; in each case it
    writes nothing. *)
Theorem transfer_rejects (ws : WorldState) (k b : string) :
  (occupied ws k = false -> TransferAsset k b ws = (inl (NotFound k), ws)) /\
  (forall bytes,
     ws !! k = Some bytes -> bytes <> "" -> malformed bytes = true ->
     TransferAsset k b ws = (inl SyntaxError, ws)) /\
  (forall v,
     wf v -> is_primitive v = true -> ws !! k = Some (JSON_stringify v) ->
     TransferAsset k b ws = (inl TypeError, ws)).
Proof.
  split; [|split].
  - intros Ho. unfold TransferAsset, bind.
    rewrite (ReadAsset_absent _ _ Ho). reflexivity.
  - intros bytes Hk Hne Hm. unfold TransferAsset, bind.
    rewrite (ReadAsset_stored _ _ _ Hk Hne). unfold parse.
    rewrite (malformed_parse _ Hm). reflexivity.
  - intros v Hwf Hp Hk. unfold TransferAsset, bind.
    rewrite (ReadAsset_stored _ _ _ Hk (stringify_nonempty v)). unfold parse.
    rewrite (parse_stringify v Hwf).
    destruct v; cbn; try reflexivity; discriminate.
Qed.

Lemma transfer_rejects_witness :
  TransferAsset "k" "Y" ∅ = (inl (NotFound "k"), ∅) /\
  TransferAsset "k" "Y" (<["k" := "oops"]> ∅)
  = (inl SyntaxError, <["k" := "oops"]> ∅) /\
  TransferAsset "k" "Y" (<["k" := "null"]> ∅)
  = (inl TypeError, <["k" := "null"]> ∅) /\
  TransferAsset "k" "Y" (<["k" := "1e-7"]> ∅)
  = (inl TypeError, <["k" := "1e-7"]> ∅).
Proof.
  split; [apply (transfer_rejects ∅ "k" "Y"); reflexivity|].
  split.
  { apply (proj1 (proj2 (transfer_rejects (<["k" := "oops"]> ∅) "k" "Y"))
             "oops"); [reflexivity | discriminate | reflexivity]. }
  split.
  { apply (proj2 (proj2 (transfer_rejects (<["k" := "null"]> ∅) "k" "Y"))
             JNull); [exact I | reflexivity | reflexivity]. }
  apply (proj2 (proj2 (transfer_rejects (<["k" := "1e-7"]> ∅) "k" "Y"))
           (JNum (MkNumber false 1 Nil (Some (-7)%Z))));
    [exact I | reflexivity | reflexivity].
Defined.

(** X7.  On the stored text of any well-formed object, [TransferAsset] returns
    the [Owner] read, or nothing when the object has none; the record
    written has the new owner, and each other property is the sorted form of
    the property read. *)
Theorem transfer_on_any_object (ws : WorldState) (k b : string) (o : object) :
  ws !! k = Some (JSON_stringify (JObj o)) -> wf (JObj o) ->
  exists ws1 after,
    TransferAsset k b ws = (inr (obj_get o "Owner"), ws1) /\
    stored_record ws1 k = Some (JObj after) /\
    obj_get after "Owner" = Some (JStr b) /\
    forall name, name <> "Owner" ->
      obj_get after name = sortKeysRecursive <$> obj_get o name.
Proof.
  intros Hk Hwf.
  exists (<[k := encode (obj_set o "Owner" (JStr b))]> ws),
    (sort_by_key (map sort_member (obj_set o "Owner" (JStr b)))).
  split; [apply TransferAsset_run; assumption|].
  split.
  { rewrite stored_record_insert by (apply obj_set_wf; [exact Hwf | exact I]).
    reflexivity. }
  apply wf_obj in Hwf as [Hnd _].
  split.
  - rewrite obj_get_sorted by apply obj_set_NoDup, Hnd.
    rewrite obj_get_set. reflexivity.
  - intros name Hname.
    rewrite obj_get_sorted by apply obj_set_NoDup, Hnd.
    rewrite obj_get_set.
    destruct (String.eqb_spec "Owner" name) as [E|_]; [congruence|reflexivity].
Qed.

Lemma transfer_on_any_object_witness :
  exists ws1 after,
    TransferAsset "k" "Y" (<["k" := JSON_stringify (JObj [("b", JNull)])]> ∅)
    = (inr None, ws1) /\
    stored_record ws1 "k" = Some (JObj after) /\
    obj_get after "Owner" = Some (JStr "Y") /\
    forall name, name <> "Owner" ->
      obj_get after name = sortKeysRecursive <$> obj_get [("b", JNull)] name.
Proof.
  apply (transfer_on_any_object _ "k" "Y" [("b", JNull)]).
  - reflexivity.
  - apply wf_obj. split; [apply (bool_decide_unpack _); vm_compute; exact I|].
    repeat constructor.
Defined.

(** ** How the transactions compose *)

(** X8.  Two transfers in a row: the second returns the owner the first one
    set, and the world state is the one a record created with the last
    owner would have left. *)
Theorem transfer_twice (ws : WorldState) (k : string) (f : Asset)
    (a b c : string) :
  occupied ws k = false ->
  exists ws1 ws2 ws3,
    Create k (with_owner f a) ws = (inr tt, ws1) /\
    TransferAsset k b ws1 = (inr (Some (JStr a)), ws2) /\
    TransferAsset k c ws2 = (inr (Some (JStr b)), ws3) /\
    ws3 = <[k := encode (record k (with_owner f c))]> ws.
Proof.
  intros H.
  assert (Hstep : forall (w : WorldState) x y,
            TransferAsset k y (<[k := encode (record k (with_owner f x))]> w)
            = (inr (Some (JStr x)),
               <[k := encode (record k (with_owner f y))]> w)).
  { intros w x y.
    assert (Hb : (<[k := encode (record k (with_owner f x))]> w) !! k
                 = Some (stringify (JObj (sorted_record k (with_owner f x))))).
    { rewrite lookup_insert_eq. unfold encode. rewrite sort_record. reflexivity. }
    assert (Hwf : wf (JObj (sorted_record k (with_owner f x)))).
    { rewrite <- sort_record. apply sortKeysRecursive_wf, wf_record. }
    rewrite (TransferAsset_run k y _ _ Hb Hwf).
    change (obj_set (sorted_record k (with_owner f x)) "Owner" (JStr y))
      with (sorted_record k (with_owner f y)).
    unfold encode at 1.
    rewrite <- (sort_record k (with_owner f y)), sortKeysRecursive_idem.
    rewrite insert_insert_eq. reflexivity. }
  eexists _, _, _. split; [apply Create_absent, H|].
  split; [apply Hstep|]. split; [apply Hstep | reflexivity].
Qed.

Lemma transfer_twice_witness :
  exists ws1 ws2 ws3,
    Create "dev-1" (with_owner sample "A") ∅ = (inr tt, ws1) /\
    TransferAsset "dev-1" "B" ws1 = (inr (Some (JStr "A")), ws2) /\
    TransferAsset "dev-1" "A" ws2 = (inr (Some (JStr "B")), ws3) /\
    ws3 = <["dev-1" := encode (record "dev-1" (with_owner sample "A"))]> ∅.
Proof. apply (transfer_twice ∅ "dev-1" sample "A" "B" "A"). reflexivity. Defined.

(** X9.  At a key that holds nothing, [CreateAsset] and then [DeleteAsset] give
    back the world state they started from. *)
Theorem create_then_delete_restores (ws : WorldState) (k : string) (f : Asset) :
  ws !! k = None ->
  exists ws1,
    Create k f ws = (inr tt, ws1) /\ DeleteAsset k ws1 = (inr tt, ws).
Proof.
  intros H. exists (<[k := encode (record k f)]> ws). split.
  - apply Create_absent. unfold occupied. rewrite H. reflexivity.
  - rewrite DeleteAsset_run, occupied_created, delete_insert_id; [reflexivity|].
    exact H.
Qed.

Lemma create_then_delete_restores_witness :
  exists ws1,
    Create "dev-1" sample ∅ = (inr tt, ws1) /\
    DeleteAsset "dev-1" ws1 = (inr tt, ∅).
Proof. apply create_then_delete_restores. reflexivity. Defined.

(** X10.  [UpdateAsset] overwrites: after two updates the world state is the one
    the second alone would have left, and an update with the fields the
    record already has changes no byte. *)
Theorem update_last_write_wins (ws : WorldState) (k : string) (f1 f2 : Asset) :
  occupied ws k = true ->
  exists ws1 ws2,
    Update k f1 ws = (inr tt, ws1) /\
    Update k f2 ws1 = (inr tt, ws2) /\
    Update k f2 ws = (inr tt, ws2) /\
    Update k f2 ws2 = (inr tt, ws2).
Proof.
  intros H.
  exists (<[k := encode (record k f1)]> ws), (<[k := encode (record k f2)]> ws).
  rewrite !UpdateAsset_run, H, !occupied_created.
  rewrite !insert_insert_eq. repeat split; reflexivity.
Qed.

Lemma update_last_write_wins_witness :
  exists ws1 ws2,
    Update "k" sample (<["k" := "old"]> ∅) = (inr tt, ws1) /\
    Update "k" (with_owner sample "Y") ws1 = (inr tt, ws2) /\
    Update "k" (with_owner sample "Y") (<["k" := "old"]> ∅) = (inr tt, ws2) /\
    Update "k" (with_owner sample "Y") ws2 = (inr tt, ws2).
Proof. apply update_last_write_wins. reflexivity. Defined.

(** ** The schema of the stored records *)

Lemma sort_tagged_record k f :
  sortKeysRecursive (JObj (tagged (record k f)))
  = JObj (tagged (sorted_record k f)).
Proof.
  rewrite sortKeysRecursive_obj. unfold tagged, record, asset_literal.
  cbn [map app]. unfold sort_member. cbn [fst snd]. rewrite !sort_numbers.
  reflexivity.
Qed.

Lemma seeded_eq a :
  seeded a = JSON_stringify (JObj (tagged (sorted_record (ID a) a))).
Proof.
  unfold seeded, encode, stringify. rewrite <- sort_tagged_record.
  reflexivity.
Qed.

Lemma shaped_wf k o : shaped k o -> wf (JObj o).
Proof.
  intros (f & [-> | ->]).
  - rewrite <- sort_record. apply sortKeysRecursive_wf, wf_record.
  - rewrite <- sort_tagged_record. apply sortKeysRecursive_wf.
    apply (obj_set_wf (record k f) "docType" (JStr "asset"));
      [apply wf_record | exact I].
Qed.

Lemma shaped_sorted k o : shaped k o -> sortKeysRecursive (JObj o) = JObj o.
Proof.
  intros (f & [-> | ->]).
  - rewrite <- sort_record. apply sortKeysRecursive_idem.
  - rewrite <- sort_tagged_record. apply sortKeysRecursive_idem.
Qed.

Lemma shaped_owner k o :
  shaped k o -> exists a, obj_get o "Owner" = Some (JStr a).
Proof. intros (f & [-> | ->]); exists (Owner f); reflexivity. Qed.

Lemma shaped_set_owner k o b :
  shaped k o -> shaped k (obj_set o "Owner" (JStr b)).
Proof.
  intros (f & [-> | ->]); exists (with_owner f b); [left | right]; reflexivity.
Qed.

Lemma shaped_ID k o : shaped k o -> obj_get o "ID" = Some (JStr k).
Proof. intros (f & [-> | ->]); reflexivity. Qed.

Lemma TransferAsset_shaped ws k b o :
  ws !! k = Some (JSON_stringify (JObj o)) -> shaped k o ->
  exists a,
    TransferAsset k b ws
    = (inr (Some (JStr a)),
       <[k := JSON_stringify (JObj (obj_set o "Owner" (JStr b)))]> ws).
Proof.
  intros Hk Ho. destruct (shaped_owner k o Ho) as (a & Ha). exists a.
  rewrite (TransferAsset_run k b o ws Hk (shaped_wf k o Ho)), Ha.
  unfold encode, stringify.
  rewrite (shaped_sorted k _ (shaped_set_owner k o b Ho)). reflexivity.
Qed.

Lemma keyspace_shaped_insert ws k o :
  shaped k o -> keyspace_shaped ws ->
  keyspace_shaped (<[k := JSON_stringify (JObj o)]> ws).
Proof.
  intros Ho Hws key bytes. destruct (decide (k = key)) as [->|Hne].
  - rewrite lookup_insert_eq. intros [= <-]. eauto.
  - rewrite lookup_insert_ne by exact Hne. apply Hws.
Qed.

Lemma commit_shaped i ws : keyspace_shaped ws -> keyspace_shaped (commit i ws).
Proof.
  intros Hws. destruct i as [ | k f | k | k f | k | k | k b | ]; cbn [commit].
  - rewrite InitLedger_run. cbn [snd]. revert ws Hws.
    induction assets as [|a l IH]; intros ws Hws; [exact Hws|].
    cbn [fold_left]. apply IH. rewrite seeded_eq.
    apply keyspace_shaped_insert; [|exact Hws]. exists a. right. reflexivity.
  - rewrite CreateAsset_run. destruct (occupied ws k); [exact Hws|].
    unfold encode, stringify. rewrite sort_record.
    apply keyspace_shaped_insert; [|exact Hws]. exists f. left. reflexivity.
  - rewrite ReadAsset_run. destruct (ws !! k) as [bytes|]; [|exact Hws].
    destruct (Nat.eqb (String.length bytes) 0); exact Hws.
  - rewrite UpdateAsset_run. destruct (occupied ws k); [|exact Hws].
    unfold encode, stringify. rewrite sort_record.
    apply keyspace_shaped_insert; [|exact Hws]. exists f. left. reflexivity.
  - rewrite DeleteAsset_run. destruct (occupied ws k); [|exact Hws].
    intros key bytes H. cbn [snd] in H. apply lookup_delete_Some in H as [_ H].
    exact (Hws _ _ H).
  - exact Hws.
  - destruct (ws !! k) as [bytes|] eqn:Hk.
    + destruct (Hws _ _ Hk) as (o & Ho & ->).
      destruct (TransferAsset_shaped ws k b o Hk Ho) as (a & ->). cbn [snd].
      apply keyspace_shaped_insert; [apply shaped_set_owner, Ho | exact Hws].
    + unfold TransferAsset, bind. rewrite ReadAsset_run, Hk. exact Hws.
  - exact Hws.
Qed.

Lemma reachable_shaped ws : reachable ws -> keyspace_shaped ws.
Proof.
  induction 1 as [|ws i _ IH].
  - intros key bytes H. rewrite lookup_empty in H. discriminate.
  - apply commit_shaped, IH.
Qed.

(** ** The keyspace holds canonical encodings only *)

Lemma key_sorted_arr l : key_sorted (JArr l) <-> Forall key_sorted l.
Proof.
  induction l as [|x l IH]; simpl.
  - split; auto.
  - split.
    + intros [Hx Hl]. constructor; [exact Hx | apply IH, Hl].
    + intros H. inversion H; subst. split; [assumption | apply IH; assumption].
Qed.

Lemma key_sorted_obj o :
  key_sorted (JObj o)
  <-> ascending (map fst o) /\ Forall (fun m => key_sorted (snd m)) o.
Proof.
  simpl. apply and_iff_compat_l.
  induction o as [|[k x] o IH]; simpl.
  - split; auto.
  - split.
    + intros [Hx Hl]. constructor; [exact Hx | apply IH, Hl].
    + intros H. inversion H; subst. split; [assumption | apply IH; assumption].
Qed.

Lemma ltb_le_ne a b : String.ltb a b = true <-> String.le a b /\ a <> b.
Proof.
  unfold String.ltb, String.le, String.leb.
  destruct (String.compare a b) eqn:E; split.
  - discriminate.
  - intros [_ H]. destruct H. apply String.compare_eq_iff, E.
  - intros _. split; [exact I|]. intros ->.
    pose proof (String.compare_antisym b b) as H. rewrite E in H.
    discriminate H.
  - reflexivity.
  - discriminate.
  - intros [[] _].
Qed.

Lemma ascending_sorted {A : Type} (l : list (string * A)) :
  StronglySorted key_le l -> NoDup (map fst l) -> ascending (map fst l).
Proof.
  induction 1 as [|m l Hl IH Hm]; simpl; [intros; exact I|].
  intros Hnd. apply NoDup_cons in Hnd as [Hin Hnd]. split; [|apply IH, Hnd].
  destruct l as [|m' l']; [exact I|]. simpl.
  apply ltb_le_ne. inversion Hm as [|? ? Hmm' _]; subst. split; [exact Hmm'|].
  intros E. apply Hin. simpl. rewrite E. left.
Qed.

Lemma sortKeysRecursive_key_sorted v : wf v -> key_sorted (sortKeysRecursive v).
Proof.
  induction v as [ | b | n | s | l IH | o IH ] using json_ind';
    try (intros; exact I).
  - intros Hl. apply wf_arr in Hl.
    change (key_sorted (JArr (map sortKeysRecursive l))). apply key_sorted_arr.
    apply Forall_map.
    induction IH; inversion Hl; subst; constructor; auto.
  - rewrite sortKeysRecursive_obj, wf_obj, key_sorted_obj. intros [Hnd Hl]. split.
    + apply ascending_sorted; [apply sort_by_key_sorted|].
      rewrite sort_by_key_keys, sort_member_keys. exact Hnd.
    + rewrite sort_by_key_perm. apply Forall_map. clear Hnd.
      induction IH; inversion Hl; subst; constructor; auto.
Qed.

Lemma canonical_encode r : wf (JObj r) -> canonical (encode r).
Proof.
  intros H. exists (sort_by_key (map sort_member r)).
  rewrite <- !sortKeysRecursive_obj.
  split; [apply sortKeysRecursive_key_sorted, H | reflexivity].
Qed.

Lemma shaped_canonical k o : shaped k o -> canonical (JSON_stringify (JObj o)).
Proof.
  intros Ho. rewrite <- (shaped_sorted k o Ho).
  apply (canonical_encode o), (shaped_wf k o Ho).
Qed.

(** C9.  Every world state that the transactions of the contract reach from
    the empty ledger holds, at every key, the compact text of a record of
    the contract, and the keys of that text are in strictly ascending order,
    recursively. *)
Theorem keyspace_stays_canonical (ws : WorldState) :
  reachable ws -> keyspace_canonical ws /\ keyspace_shaped ws.
Proof.
  intros Hr. pose proof (reachable_shaped ws Hr) as Hs. split; [|exact Hs].
  intros key bytes Hk. destruct (Hs key bytes Hk) as (o & Ho & ->).
  apply (shaped_canonical key o Ho).
Qed.

Lemma keyspace_stays_canonical_witness :
  canonical (encode (obj_set (sorted_record "dev-1" sample) "Owner" (JStr "Y"))) /\
  exists o,
    shaped "dev-1" o /\
    encode (obj_set (sorted_record "dev-1" sample) "Owner" (JStr "Y"))
    = JSON_stringify (JObj o).
Proof.
  destruct (keyspace_stays_canonical
              (commit (Call_TransferAsset "dev-1" "Y")
                 (commit (Call_CreateAsset "dev-1" sample)
                    (commit Call_InitLedger ∅)))
              (reachable_commit _ _ (reachable_commit _ _
                 (reachable_commit _ _ reachable_genesis))))
    as [Hc Hs].
  split.
  - apply (Hc "dev-1"). vm_compute. reflexivity.
  - apply (Hs "dev-1"). vm_compute. reflexivity.
Defined.

(** X11.  On a ledger that only the contract has written, the bytes of every key
    decode to a record of the thirteen fields in ascending key order,
    followed by the [docType] tag for a seed record, and the [ID] of the
    record is the key. *)
Theorem stored_records_keep_schema (ws : WorldState) (k bytes : string) :
  reachable ws -> ws !! k = Some bytes ->
  exists f o,
    JSON_parse bytes = Some (JObj o) /\
    (o = sorted_record k f \/ o = tagged (sorted_record k f)) /\
    obj_get o "ID" = Some (JStr k).
Proof.
  intros Hr Hk. destruct (reachable_shaped ws Hr k bytes Hk) as (o & Ho & ->).
  pose proof (shaped_ID k o Ho) as Hid. pose proof (shaped_wf k o Ho) as Hwf.
  destruct Ho as (f & Hf). exists f, o.
  split; [apply parse_stringify, Hwf|]. split; assumption.
Qed.

Lemma stored_records_keep_schema_witness :
  exists f o,
    JSON_parse (encode (record "dev-1" sample)) = Some (JObj o) /\
    (o = sorted_record "dev-1" f \/ o = tagged (sorted_record "dev-1" f)) /\
    obj_get o "ID" = Some (JStr "dev-1").
Proof.
  apply (stored_records_keep_schema
           (commit (Call_CreateAsset "dev-1" sample)
              (commit Call_InitLedger ∅)) "dev-1").
  - apply reachable_commit, reachable_commit, reachable_genesis.
  - vm_compute. reflexivity.
Defined.

(** X12.  On a ledger that only the contract has written, [TransferAsset] at an
    occupied key does not throw, and what it returns is a string. *)
Theorem transfer_succeeds_on_reachable (ws : WorldState) (k b : string) :
  reachable ws -> occupied ws k = true ->
  exists a ws1,
    TransferAsset k b ws = (inr (Some (JStr a)), ws1) /\
    occupied ws1 k = true.
Proof.
  intros Hr Ho. apply occupied_lookup in Ho as (bytes & Hk & _).
  destruct (reachable_shaped ws Hr k bytes Hk) as (o & Hs & ->).
  destruct (TransferAsset_shaped ws k b o Hk Hs) as (a & ->).
  eexists _, _. split; [reflexivity|].
  apply occupied_insert, stringify_nonempty.
Qed.

Lemma transfer_succeeds_on_reachable_witness :
  exists a ws1,
    TransferAsset "basdni7s8acadad8a9d8" "Y" (commit Call_InitLedger ∅)
    = (inr (Some (JStr a)), ws1) /\
    occupied ws1 "basdni7s8acadad8a9d8" = true.
Proof.
  apply transfer_succeeds_on_reachable.
  - apply reachable_commit, reachable_genesis.
  - vm_compute. reflexivity.
Defined.

(** ** Listing *)



(** ** Seeding *)

(** X15.  [InitLedger] has no existence check: on every world state it succeeds
    and leaves each seed key with the bytes of its seed record, whatever the
    key held; a second run changes nothing. *)
Theorem init_overwrites (ws : WorldState) :
  exists ws1,
    InitLedger ws = (inr tt, ws1) /\
    (forall a, a ∈ assets -> ws1 !! ID a = Some (seeded a)) /\
    InitLedger ws1 = (inr tt, ws1).
Proof.
  eexists. split; [apply InitLedger_run|]. cbn [assets fold_left]. split.
  - intros a ->%list_elem_of_singleton. apply lookup_insert_eq.
  - rewrite InitLedger_run. cbn [assets fold_left].
    rewrite insert_insert_eq. reflexivity.
Qed.

(** ** The methane-level contract *)

Lemma methane_sort_record t m :
  sortKeysRecursive (JObj (MethaneTransfer.asset_literal t m))
  = JObj (Methane.sorted_record t m).
Proof. reflexivity. Qed.

Lemma methane_wf_record t m : wf (JObj (MethaneTransfer.asset_literal t m)).
Proof.
  apply wf_obj. split; [apply (bool_decide_unpack _); vm_compute; exact I|].
  repeat constructor.
Qed.

Lemma methane_CreateAsset_run t m ws :
  MethaneTransfer.CreateAsset t m ws =
  if occupied ws t then (inl (Methane.AlreadyExists t), ws)
  else (inr tt, <[t := encode (MethaneTransfer.asset_literal t m)]> ws).
Proof.
  unfold MethaneTransfer.CreateAsset, bind.
  change (MethaneTransfer.AssetExists t ws) with (inr (B := bool) (A := error) (occupied ws t), ws).
  destruct (occupied ws t); reflexivity.
Qed.

Lemma methane_UpdateAsset_run t m ws :
  MethaneTransfer.UpdateAsset t m ws =
  if occupied ws t
  then (inr tt, <[t := encode (MethaneTransfer.asset_literal t m)]> ws)
  else (inl (Methane.NotFound t), ws).
Proof.
  unfold MethaneTransfer.UpdateAsset, bind.
  change (MethaneTransfer.AssetExists t ws) with (inr (B := bool) (A := error) (occupied ws t), ws).
  destruct (occupied ws t); reflexivity.
Qed.

Lemma methane_ReadAsset_run t ws :
  MethaneTransfer.ReadAsset t ws =
  match ws !! t with
  | Some bytes =>
      if Nat.eqb (String.length bytes) 0 then (inl (Methane.NotFound t), ws)
      else (inr bytes, ws)
  | None => (inl (Methane.NotFound t), ws)
  end.
Proof.
  unfold MethaneTransfer.ReadAsset, bind, getState.
  destruct (ws !! t) as [bytes|]; [|reflexivity].
  destruct (Nat.eqb (String.length bytes) 0); reflexivity.
Qed.

Lemma methane_InitLedger_run ws :
  MethaneTransfer.InitLedger ws
  = (inr tt,
     <["00:00:00" :=
         JSON_stringify
           (JObj (tagged (Methane.sorted_record "00:00:00" (Number false 0 Nil))))]>
       ws).
Proof. reflexivity. Qed.

(** X16.  In the methane-level contract, [CreateAsset] at a timestamp that is not
    occupied and then [ReadAsset] succeed; the text decodes to the record of
    the level and the timestamp, and a second [CreateAsset] there throws the
    already-exists error and writes nothing. *)
Theorem methane_create_read (ws : WorldState) (t : string) (m m' : number) :
  occupied ws t = false ->
  exists ws1 text,
    MethaneTransfer.CreateAsset t m ws = (inr tt, ws1) /\
    MethaneTransfer.ReadAsset t ws1 = (inr text, ws1) /\
    JSON_parse text
    = Some (JObj [("Methanelevel", JNum m); ("Timestamp", JStr t)]) /\
    MethaneTransfer.CreateAsset t m' ws1 = (inl (Methane.AlreadyExists t), ws1).
Proof.
  intros H.
  exists (<[t := encode (MethaneTransfer.asset_literal t m)]> ws),
    (encode (MethaneTransfer.asset_literal t m)).
  split; [rewrite methane_CreateAsset_run, H; reflexivity|].
  split.
  { rewrite methane_ReadAsset_run, lookup_insert_eq.
    pose proof (encode_nonempty (MethaneTransfer.asset_literal t m)) as Hne.
    destruct (encode (MethaneTransfer.asset_literal t m)); [congruence|reflexivity]. }
  split; [apply parse_encode, methane_wf_record|].
  rewrite methane_CreateAsset_run, occupied_created. reflexivity.
Qed.

Lemma methane_create_read_witness :
  exists ws1 text,
    MethaneTransfer.CreateAsset "00:00:01" (Number false 2 (D5 Nil)) ∅
    = (inr tt, ws1) /\
    MethaneTransfer.ReadAsset "00:00:01" ws1 = (inr text, ws1) /\
    JSON_parse text
    = Some (JObj [("Methanelevel", JNum (Number false 2 (D5 Nil)));
                  ("Timestamp", JStr "00:00:01")]) /\
    MethaneTransfer.CreateAsset "00:00:01" (Number false 9 Nil) ws1
    = (inl (Methane.AlreadyExists "00:00:01"), ws1).
Proof. apply methane_create_read. reflexivity. Defined.

(** X17.  In the methane-level contract, [UpdateAsset] at an occupied timestamp
    replaces the record, whatever it was, by the record of the new level;
    at a timestamp that is not occupied it throws the does-not-exist error
    and writes nothing. *)
Theorem methane_update (ws : WorldState) (t : string) (m : number) :
  (occupied ws t = true ->
   exists ws1,
     MethaneTransfer.UpdateAsset t m ws = (inr tt, ws1) /\
     stored_record ws1 t
     = Some (JObj [("Methanelevel", JNum m); ("Timestamp", JStr t)])) /\
  (occupied ws t = false ->
   MethaneTransfer.UpdateAsset t m ws = (inl (Methane.NotFound t), ws)).
Proof.
  rewrite methane_UpdateAsset_run. split; intros ->; [|reflexivity].
  eexists. split; [reflexivity|].
  apply (stored_record_insert ws t _ (methane_wf_record t m)).
Qed.

Lemma methane_update_witness :
  (exists ws1,
     MethaneTransfer.UpdateAsset "00:00:00" (Number false 7 Nil)
       (snd (MethaneTransfer.InitLedger ∅)) = (inr tt, ws1) /\
     stored_record ws1 "00:00:00"
     = Some (JObj [("Methanelevel", JNum (Number false 7 Nil));
                   ("Timestamp", JStr "00:00:00")])) /\
  MethaneTransfer.UpdateAsset "00:00:00" (Number false 7 Nil) ∅
  = (inl (Methane.NotFound "00:00:00"), ∅).
Proof.
  split.
  - apply (methane_update (snd (MethaneTransfer.InitLedger ∅))). vm_compute.
    reflexivity.
  - apply (methane_update ∅). reflexivity.
Defined.

(** X18.  No transaction of the methane-level contract removes a key: a key that
    holds bytes holds bytes afterwards, and an occupied key stays
    occupied. *)
Theorem methane_never_deletes (i : Methane.invocation) (ws : WorldState)
    (k : string) :
  (is_Some (ws !! k) -> is_Some (Methane.commit i ws !! k)) /\
  (occupied ws k = true -> occupied (Methane.commit i ws) k = true).
Proof.
  assert (Hins : forall t o,
            (is_Some (ws !! k) -> is_Some (<[t := encode o]> ws !! k)) /\
            (occupied ws k = true -> occupied (<[t := encode o]> ws) k = true)).
  { intros t o. destruct (decide (t = k)) as [->|Hne].
    - rewrite lookup_insert_eq, occupied_created. split; eauto.
    - rewrite lookup_insert_ne, occupied_insert_ne by exact Hne. split; auto. }
  destruct i as [ | t m | t | t m | t | t | ]; cbn [Methane.commit].
  - rewrite methane_InitLedger_run. cbn [snd].
    apply (Hins "00:00:00"
             (tagged (MethaneTransfer.asset_literal "00:00:00" (Number false 0 Nil)))).
  - rewrite methane_CreateAsset_run. destruct (occupied ws t); [split; auto|].
    apply Hins.
  - rewrite methane_ReadAsset_run. destruct (ws !! t) as [bytes|]; [|split; auto].
    destruct (Nat.eqb (String.length bytes) 0); split; auto.
  - rewrite methane_UpdateAsset_run. destruct (occupied ws t); [|split; auto].
    apply Hins.
  - split; auto.
  - split; auto.
  - split; auto.
Qed.

Lemma methane_never_deletes_witness :
  occupied
    (Methane.commit (Methane.Call_DeleteAsset "00:00:00")
       (Methane.commit Methane.Call_InitLedger ∅)) "00:00:00" = true.
Proof.
  apply methane_never_deletes. vm_compute. reflexivity.
Defined.

Lemma methane_commit_shaped i ws :
  (forall k bytes, ws !! k = Some bytes ->
     exists o, Methane.shaped k o /\ bytes = JSON_stringify (JObj o)) ->
  forall k bytes, Methane.commit i ws !! k = Some bytes ->
    exists o, Methane.shaped k o /\ bytes = JSON_stringify (JObj o).
Proof.
  intros Hws.
  assert (Hins : forall t o, Methane.shaped t o ->
            forall k bytes, <[t := JSON_stringify (JObj o)]> ws !! k = Some bytes ->
              exists o, Methane.shaped k o /\ bytes = JSON_stringify (JObj o)).
  { intros t o Ho k bytes. destruct (decide (t = k)) as [->|Hne].
    - rewrite lookup_insert_eq. intros [= <-]. eauto.
    - rewrite lookup_insert_ne by exact Hne. apply Hws. }
  destruct i as [ | t m | t | t m | t | t | ]; cbn [Methane.commit].
  - rewrite methane_InitLedger_run. cbn [snd]. apply Hins.
    exists (Number false 0 Nil). right. reflexivity.
  - rewrite methane_CreateAsset_run. destruct (occupied ws t); [exact Hws|].
    apply Hins. exists m. left. reflexivity.
  - rewrite methane_ReadAsset_run. destruct (ws !! t) as [bytes|]; [|exact Hws].
    destruct (Nat.eqb (String.length bytes) 0); exact Hws.
  - rewrite methane_UpdateAsset_run. destruct (occupied ws t); [|exact Hws].
    apply Hins. exists m. left. reflexivity.
  - exact Hws.
  - exact Hws.
  - exact Hws.
Qed.

(** X19.  On a ledger that only the methane-level contract has written, the bytes
    of every key decode to the record of a level and a timestamp, followed
    by the [docType] tag for the seed record, and the [Timestamp] of the
    record is the key. *)
Theorem methane_records_keep_schema (ws : WorldState) (k bytes : string) :
  Methane.reachable ws -> ws !! k = Some bytes ->
  exists m o,
    JSON_parse bytes = Some (JObj o) /\
    (o = Methane.sorted_record k m \/ o = tagged (Methane.sorted_record k m)) /\
    obj_get o "Timestamp" = Some (JStr k).
Proof.
  intros Hr. revert k bytes.
  enough (H : forall k bytes, ws !! k = Some bytes ->
            exists o, Methane.shaped k o /\ bytes = JSON_stringify (JObj o)).
  { intros k bytes Hk. destruct (H k bytes Hk) as (o & (m & Hm) & ->).
    exists m, o. split; [|split; [exact Hm|]].
    - apply parse_stringify, wf_obj.
      destruct Hm as [-> | ->];
        (split; [apply (bool_decide_unpack _); vm_compute; exact I|]);
        repeat constructor.
    - destruct Hm as [-> | ->]; reflexivity. }
  induction Hr as [|ws i _ IH].
  - intros k bytes H. rewrite lookup_empty in H. discriminate.
  - apply methane_commit_shaped, IH.
Qed.

Lemma methane_records_keep_schema_witness :
  exists m o,
    JSON_parse
      (JSON_stringify
         (JObj (tagged (Methane.sorted_record "00:00:00" (Number false 0 Nil)))))
    = Some (JObj o) /\
    (o = Methane.sorted_record "00:00:00" m \/
     o = tagged (Methane.sorted_record "00:00:00" m)) /\
    obj_get o "Timestamp" = Some (JStr "00:00:00").
Proof.
  apply (methane_records_keep_schema (Methane.commit Methane.Call_InitLedger ∅)).
  - apply Methane.reachable_commit, Methane.reachable_genesis.
  - vm_compute. reflexivity.
Defined.

(** ** The model on concrete inputs *)

Example stringify_sample :
  JSON_stringify
    (JObj [("Owner", JStr (text "a`b")); ("SNR", JNum half);
           ("G", JArr [JNum (Number true 12 Nil); JNull; JBool true])])
  = text "{`Owner`:`a\`b`,`SNR`:0.5,`G`:[-12,null,true]}".
Proof. vm_compute. reflexivity. Qed.

Example parse_sample :
  JSON_parse
    (text "{ `Owner` : `aA\n`, `SNR`:0.5,`G`:[-12, null,true], `SNR`:7 }")
  = Some (JObj [("Owner", JStr (String "a" (String "A" (String "010" ""))));
                ("SNR", JNum (Number false 7 Nil));
                ("G", JArr [JNum (Number true 12 Nil); JNull; JBool true])]).
Proof. vm_compute. reflexivity. Qed.

Example parse_leading_zero : JSON_parse (text "{`a`:01}") = None.
Proof. vm_compute. reflexivity. Qed.

Example parse_trailing_comma : JSON_parse "[1,]" = None.
Proof. vm_compute. reflexivity. Qed.

Example parse_empty : JSON_parse "" = None.
Proof. vm_compute. reflexivity. Qed.

(** Numbers with an exponent, as JavaScript prints a small and a large
    double. *)
Example parse_small_exponent :
  JSON_parse "1e-7" = Some (JNum (MkNumber false 1 Nil (Some (-7)%Z))).
Proof. vm_compute. reflexivity. Qed.

Example stringify_large_exponent :
  JSON_stringify (JNum (MkNumber false 1 (D5 Nil) (Some 21%Z))) = "1.5e+21".
Proof. vm_compute. reflexivity. Qed.

Example parse_exponent_in_record :
  JSON_parse (text "{`SNR`:2.5E3,`VBAT`:-1e+21}")
  = Some (JObj [("SNR", JNum (MkNumber false 2 (D5 Nil) (Some 3%Z)));
                ("VBAT", JNum (MkNumber true 1 Nil (Some 21%Z)))]).
Proof. vm_compute. reflexivity. Qed.

Example parse_exponent_without_digits : JSON_parse "1e" = None.
Proof. vm_compute. reflexivity. Qed.

(** A number in the form JavaScript prints, and two that it prints
    otherwise. *)
Example normal_numbers :
  normal_number (MkNumber false 45 (D4 (D6 (D4 (D6 (D6 (D4 Nil)))))) None)
  = true /\
  normal_number (MkNumber false 1 (D0 Nil) None) = false /\
  normal_number (MkNumber false 2 Nil (Some 5%Z)) = false.
Proof. vm_compute. repeat split; reflexivity. Qed.

(** The bytes of the seed record of [InitLedger]. *)
Example InitLedger_bytes :
  snd (InitLedger ∅) !! "basdni7s8acadad8a9d8"
  = Some (text "{`Accelerometer`:[0.5,0.5,0.5],`Gas_resistance`:0.5,`Gyroscope`:[0.5,0.5,0.5],`Humidity`:50.5,`ID`:`basdni7s8acadad8a9d8`,`Latitude`:45.464664,`Light`:0.5,`Longitude`:12.2629,`Owner`:`Chidera's IoT device 1`,`Pressure`:1000.5,`SNR`:0.5,`Temperature`:31.7,`VBAT`:3.3,`docType`:`asset`}").
Proof. vm_compute. reflexivity. Qed.

(** The example scenario of the spec: create, read, transfer, read. *)
Example scenario :
  let ws1 := snd (Create "dev-1" sample ∅) in
  let ws2 := snd (TransferAsset "dev-1" "Y" ws1) in
  fst (ReadAsset "dev-1" ws1)
  = inr (text "{`Accelerometer`:[],`Gas_resistance`:0,`Gyroscope`:[],`Humidity`:0,`ID`:`dev-1`,`Latitude`:0,`Light`:0,`Longitude`:0,`Owner`:`X`,`Pressure`:0,`SNR`:0.5,`Temperature`:0,`VBAT`:3.3}") /\
  fst (TransferAsset "dev-1" "Y" ws1) = inr (Some (JStr "X")) /\
  fst (ReadAsset "dev-1" ws2)
  = inr (text "{`Accelerometer`:[],`Gas_resistance`:0,`Gyroscope`:[],`Humidity`:0,`ID`:`dev-1`,`Latitude`:0,`Light`:0,`Longitude`:0,`Owner`:`Y`,`Pressure`:0,`SNR`:0.5,`Temperature`:0,`VBAT`:3.3}").
Proof. vm_compute. repeat split; reflexivity. Qed.

(** A listing with an entry that is no JSON text. *)
Example listing :
  fst (GetAllAssets (<["b" := "oops"]> (<["a" := text "{`x`:1}"]> ∅)))
  = inr (text "[{`x`:1},`oops`]").
Proof. vm_compute. reflexivity. Qed.

Example methane_bytes :
  snd (MethaneTransfer.InitLedger ∅) !! "00:00:00"
  = Some (text "{`Methanelevel`:0,`Timestamp`:`00:00:00`,`docType`:`asset`}").
Proof. vm_compute. reflexivity. Qed.
